(** * Viltrum Fitness: navigation overlay, AJAX navigation and workout storage

    A shallow embedding of the three client-side scripts of the repository
    (the instant-navigation overlay, [js/ajax-navigation.js] and the workout
    history / favorites / weights module), with the properties of the
    specification proved over it.

    Conventions.
    - A JavaScript string is a Rocq [string]; every character stands for one
      code unit below 256, so [length] and the prefix / substring tests agree
      with JavaScript on such strings.
    - A value that went through [JSON.parse] is a [json] tree.  Numbers are
      integers ([Z]); a literal with a fraction or an exponent is outside the
      modelled fragment and no statement below depends on one.
    - An object used as a map (exercise name to weight) is a [gmap] of its
      own properties; a read under an arbitrary name goes on to the
      prototype chain ([get_member]), and [Object.assign] reaches the
      [__proto__] setter of [Object.prototype] ([assign_props]).  The text
      written for a map lists its keys in the order of the map, which no
      function of the scripts looks at.
    - [localStorage] is a finite map from keys to strings; its quota is not
      modelled ([setItem] always succeeds). *)

From Stdlib Require Import ZArith String Ascii List Bool Lia Decimal DecimalFacts DecimalN.
From stdpp Require Import gmap strings list fin_maps pretty.

Local Open Scope string_scope.
Local Open Scope list_scope.
Local Open Scope nat_scope.

(** ** Strings as JavaScript sees them *)

Module JsString.

(** [s.startsWith(p)] *)
Fixpoint startsWith (s p : string) {struct p} : bool :=
  match p with
  | EmptyString => true
  | String c p' =>
      match s with
      | EmptyString => false
      | String d s' => Ascii.eqb c d && startsWith s' p'
      end
  end.

(** [s.includes(p)] *)
Fixpoint includes (s p : string) : bool :=
  startsWith s p ||
  match s with
  | EmptyString => false
  | String _ s' => includes s' p
  end.

(** [s.endsWith(p)] *)
Fixpoint endsWith (s p : string) : bool :=
  String.eqb s p ||
  match s with
  | EmptyString => false
  | String _ s' => endsWith s' p
  end.

(** [s.slice(n)]: the characters of [s] after its first [n]. *)
Fixpoint slice (n : nat) (s : string) : string :=
  match n, s with
  | O, _ => s
  | S n', String _ s' => slice n' s'
  | S _, EmptyString => EmptyString
  end.

(** [s.replace(p, r)] with a string pattern: only the first occurrence
    of [p] is replaced. *)
Fixpoint replace (s p r : string) : string :=
  if startsWith s p then (r ++ slice (String.length p) s)%string
  else match s with
       | EmptyString => EmptyString
       | String c s' => String c (replace s' p r)
       end.

(** The text after the first occurrence of the character [c], if any. *)
Fixpoint after (c : ascii) (s : string) : option string :=
  match s with
  | EmptyString => None
  | String d s' => if Ascii.eqb c d then Some s' else after c s'
  end.

Lemma startsWith_refl s : startsWith s s = true.
Proof. induction s as [|c s IH]; simpl; [done|]. by rewrite Ascii.eqb_refl, IH. Qed.

Lemma startsWith_app s t : startsWith (s ++ t)%string s = true.
Proof. induction s as [|c s IH]; simpl; [done|]. by rewrite Ascii.eqb_refl, IH. Qed.

Lemma includes_after c s q :
  after c s = Some q → includes s (String c EmptyString) = true.
Proof.
  induction s as [|d s IH]; simpl; [done|].
  destruct (Ascii.eqb c d) eqn:E.
  - intros _. destruct s; by rewrite ?orb_true_l.
  - intros H. rewrite (IH H). apply orb_true_r.
Qed.

Lemma includes_cons c s p : includes s p = true → includes (String c s) p = true.
Proof. intros H. simpl. rewrite H. apply orb_true_r. Qed.

Lemma after_includes c s q p :
  after c s = Some q → includes q p = true → includes s p = true.
Proof.
  revert q. induction s as [|d s IH]; simpl; [done|]. intros q.
  destruct (Ascii.eqb c d).
  - intros [= ->] H. rewrite H. apply orb_true_r.
  - intros Hq H. rewrite (IH _ Hq H). apply orb_true_r.
Qed.

Lemma startsWith_trans q : ∀ s p,
  startsWith s p = true → startsWith p q = true → startsWith s q = true.
Proof.
  induction q as [|c q IH]; intros s p; simpl; [done|].
  destruct p as [|d p]; [done|]. simpl. destruct s as [|e s]; [done|].
  intros [Hde Hsp]%andb_true_iff [Hcd Hpq]%andb_true_iff.
  apply Ascii.eqb_eq in Hde as ->. rewrite Hcd. simpl. by apply IH with p.
Qed.

Lemma includes_prefix s p q :
  includes s p = true → startsWith p q = true → includes s q = true.
Proof.
  intros H Hq. induction s as [|c s IH]; simpl in *.
  - rewrite orb_false_r in *. by apply startsWith_trans with p.
  - apply orb_true_iff in H as [H|H].
    + by rewrite (startsWith_trans q _ p H Hq).
    + rewrite (IH H). apply orb_true_r.
Qed.

Lemma replace_absent s p r : includes s p = false → replace s p r = s.
Proof.
  induction s as [|c s IH]; simpl.
  - rewrite orb_false_r. by intros ->.
  - intros [-> H]%orb_false_iff. by rewrite IH.
Qed.

Lemma replace_prefix s p r :
  startsWith s p = true → replace s p r = (r ++ slice (String.length p) s)%string.
Proof. intros H. destruct s; simpl; by rewrite H. Qed.

Lemma slice_app p s : slice (String.length p) (p ++ s)%string = s.
Proof. induction p as [|c p IH]; simpl; [by destruct s|done]. Qed.

Lemma startsWith_app_l s t p : startsWith s p = true → startsWith (s ++ t)%string p = true.
Proof.
  revert s. induction p as [|c p IH]; intros s; simpl; [done|].
  destruct s as [|d s]; [done|]. simpl.
  intros [-> H]%andb_true_iff. by rewrite IH.
Qed.

Lemma includes_app_l s t p : includes s p = true → includes (s ++ t)%string p = true.
Proof.
  induction s as [|c s IH]; simpl.
  - rewrite orb_false_r. destruct p; [by destruct t|done].
  - intros [H|H]%orb_true_iff.
    + apply orb_true_iff. left. exact (startsWith_app_l (String c s) t p H).
    + rewrite (IH H). apply orb_true_r.
Qed.

Lemma includes_app_char c s t :
  includes (s ++ t)%string (String c EmptyString) =
    includes s (String c EmptyString) || includes t (String c EmptyString).
Proof.
  induction s as [|d s IH]; simpl; [done|].
  rewrite IH. by destruct (Ascii.eqb c d).
Qed.

End JsString.

(** ** JSON texts: what [JSON.stringify] writes and [JSON.parse] reads *)

Module Json.

Unset Elimination Schemes.
Inductive json : Type :=
| JNull
| JBool (b : bool)
| JNum (n : Z)
| JStr (s : string)
| JArr (items : list json)
| JObj (props : list (string * json)).
Set Elimination Schemes.

(** Induction with the hypothesis available for every element of an array
    and every property value of an object. *)
Definition json_ind (P : json → Prop)
    (Hnull : P JNull) (Hbool : ∀ b, P (JBool b)) (Hnum : ∀ n, P (JNum n))
    (Hstr : ∀ s, P (JStr s))
    (Harr : ∀ items, Forall P items → P (JArr items))
    (Hobj : ∀ props, Forall (λ kv, P kv.2) props → P (JObj props)) :
  ∀ j, P j :=
  fix go (j : json) : P j :=
    match j with
    | JNull => Hnull
    | JBool b => Hbool b
    | JNum n => Hnum n
    | JStr s => Hstr s
    | JArr items =>
        Harr items
          ((fix all (l : list json) : Forall P l :=
              match l with
              | [] => List.Forall_nil P
              | x :: l' => List.Forall_cons P x l' (go x) (all l')
              end) items)
    | JObj props =>
        Hobj props
          ((fix all (l : list (string * json)) : Forall (λ kv, P kv.2) l :=
              match l with
              | [] => List.Forall_nil _
              | kv :: l' => List.Forall_cons (λ kv, P kv.2) kv l' (go kv.2) (all l')
              end) props)
    end.

Abbreviation text := (list ascii).

(** *** Writing *)

Fixpoint print_uint (u : uint) : text :=
  match u with
  | Nil => []
  | D0 u => "0"%char :: print_uint u
  | D1 u => "1"%char :: print_uint u
  | D2 u => "2"%char :: print_uint u
  | D3 u => "3"%char :: print_uint u
  | D4 u => "4"%char :: print_uint u
  | D5 u => "5"%char :: print_uint u
  | D6 u => "6"%char :: print_uint u
  | D7 u => "7"%char :: print_uint u
  | D8 u => "8"%char :: print_uint u
  | D9 u => "9"%char :: print_uint u
  end.

Definition print_number (n : Z) : text :=
  if (n <? 0)%Z then "-"%char :: print_uint (N.to_uint (Z.abs_N n))
  else print_uint (N.to_uint (Z.to_N n)).

Definition hex_digit (n : N) : ascii :=
  nth (N.to_nat n)
    (list_ascii_of_string "0123456789abcdef") "0"%char.

(** One character of a quoted string: the two-character escapes, then
    [\u00XX] for the other control characters, else the character. *)
Definition escape_char (c : ascii) : text :=
  if Ascii.eqb c "034"%char then ["\"%char; "034"%char]
  else if Ascii.eqb c "\"%char then list_ascii_of_string "\\"
  else if Ascii.eqb c "008"%char then list_ascii_of_string "\b"
  else if Ascii.eqb c "012"%char then list_ascii_of_string "\f"
  else if Ascii.eqb c "010"%char then list_ascii_of_string "\n"
  else if Ascii.eqb c "013"%char then list_ascii_of_string "\r"
  else if Ascii.eqb c "009"%char then list_ascii_of_string "\t"
  else if (N_of_ascii c <? 32)%N then
    list_ascii_of_string "\u00" ++
      [hex_digit (N_of_ascii c / 16); hex_digit (N_of_ascii c mod 16)]
  else [c].

Definition print_string (s : string) : text :=
  "034"%char :: flat_map escape_char (list_ascii_of_string s) ++ ["034"%char].

Fixpoint print (j : json) : text :=
  match j with
  | JNull => list_ascii_of_string "null"
  | JBool true => list_ascii_of_string "true"
  | JBool false => list_ascii_of_string "false"
  | JNum n => print_number n
  | JStr s => print_string s
  | JArr items =>
      "["%char ::
      match items with
      | [] => []
      | x :: rest => print x ++ flat_map (λ y, ","%char :: print y) rest
      end ++ ["]"%char]
  | JObj props =>
      "{"%char ::
      match props with
      | [] => []
      | kv :: rest =>
          (print_string kv.1 ++ ":"%char :: print kv.2) ++
          flat_map (λ kv', ","%char :: print_string kv'.1 ++ ":"%char :: print kv'.2) rest
      end ++ ["}"%char]
  end.

(** [JSON.stringify(j)] *)
Definition stringify (j : json) : string := string_of_list_ascii (print j).

(** *** Reading *)

Definition is_ws (c : ascii) : bool :=
  Ascii.eqb c " "%char || Ascii.eqb c "009"%char ||
  Ascii.eqb c "010"%char || Ascii.eqb c "013"%char.

Fixpoint skip_ws (s : text) : text :=
  match s with
  | c :: r => if is_ws c then skip_ws r else s
  | [] => []
  end.

Definition digit_of (c : ascii) : option (uint → uint) :=
  if Ascii.eqb c "0"%char then Some D0
  else if Ascii.eqb c "1"%char then Some D1
  else if Ascii.eqb c "2"%char then Some D2
  else if Ascii.eqb c "3"%char then Some D3
  else if Ascii.eqb c "4"%char then Some D4
  else if Ascii.eqb c "5"%char then Some D5
  else if Ascii.eqb c "6"%char then Some D6
  else if Ascii.eqb c "7"%char then Some D7
  else if Ascii.eqb c "8"%char then Some D8
  else if Ascii.eqb c "9"%char then Some D9
  else None.

Fixpoint read_digits (s : text) : uint * text :=
  match s with
  | c :: r =>
      match digit_of c with
      | Some d => let '(u, r') := read_digits r in (d u, r')
      | None => (Nil, s)
      end
  | [] => (Nil, [])
  end.

(** The integer part of a JSON number: [0], or digits not starting
    with [0]. *)
Definition int_part_ok (u : uint) : bool :=
  match u with
  | Nil => false
  | D0 Nil => true
  | D0 _ => false
  | _ => true
  end.

(** What may follow an integer literal: anything but a further digit, a
    fraction or an exponent. *)
Definition number_end (s : text) : bool :=
  match s with
  | [] => true
  | c :: _ =>
      negb (bool_decide (is_Some (digit_of c)) || Ascii.eqb c "."%char ||
            Ascii.eqb c "e"%char || Ascii.eqb c "E"%char)
  end.

Definition read_number (s : text) : option (json * text) :=
  let '(neg, s1) :=
    match s with
    | c :: r => if Ascii.eqb c "-"%char then (true, r) else (false, s)
    | [] => (false, s)
    end in
  let '(u, r) := read_digits s1 in
  if int_part_ok u && number_end r then
    let n := Z.of_N (N.of_uint u) in
    Some (JNum (if neg then - n else n)%Z, r)
  else None.

Definition hex_value (c : ascii) : option N :=
  let n := N_of_ascii c in
  if (48 <=? n)%N && (n <=? 57)%N then Some (n - 48)%N
  else if (97 <=? n)%N && (n <=? 102)%N then Some (n - 87)%N
  else if (65 <=? n)%N && (n <=? 70)%N then Some (n - 55)%N
  else None.

(** The code unit of a four-digit hexadecimal escape, when it is below
    256; an escape of a higher code unit has no counterpart among the strings
    of this development and is refused. *)
Definition unicode_escape (a b c d : ascii) : option ascii :=
  match hex_value a, hex_value b, hex_value c, hex_value d with
  | Some 0%N, Some 0%N, Some h, Some l => Some (ascii_of_N (16 * h + l))
  | _, _, _, _ => None
  end.

Definition prepend (c : ascii) (r : option (text * text)) : option (text * text) :=
  match r with
  | Some (s, rest) => Some (c :: s, rest)
  | None => None
  end.

(** The characters of a string literal after its opening quote, up to
    and including the closing quote. *)
Fixpoint read_string (s : text) : option (text * text) :=
  match s with
  | [] => None
  | c :: r =>
      if Ascii.eqb c "034"%char then Some ([], r)
      else if Ascii.eqb c "\"%char then
        match r with
        | [] => None
        | e :: r' =>
            if Ascii.eqb e "034"%char then prepend "034"%char (read_string r')
            else if Ascii.eqb e "\"%char then prepend "\"%char (read_string r')
            else if Ascii.eqb e "/"%char then prepend "/"%char (read_string r')
            else if Ascii.eqb e "b"%char then prepend "008"%char (read_string r')
            else if Ascii.eqb e "f"%char then prepend "012"%char (read_string r')
            else if Ascii.eqb e "n"%char then prepend "010"%char (read_string r')
            else if Ascii.eqb e "r"%char then prepend "013"%char (read_string r')
            else if Ascii.eqb e "t"%char then prepend "009"%char (read_string r')
            else if Ascii.eqb e "u"%char then
              match r' with
              | a :: b :: c' :: d :: r'' =>
                  match unicode_escape a b c' d with
                  | Some x => prepend x (read_string r'')
                  | None => None
                  end
              | _ => None
              end
            else None
        end
      else if (N_of_ascii c <? 32)%N then None
      else prepend c (read_string r)
  end.

(** [expect w s]: [s] without its prefix [w]. *)
Fixpoint expect (w s : text) : option text :=
  match w with
  | [] => Some s
  | c :: w' =>
      match s with
      | d :: s' => if Ascii.eqb c d then expect w' s' else None
      | [] => None
      end
  end.

Fixpoint read_value (fuel : nat) (s : text) : option (json * text) :=
  match fuel with
  | O => None
  | S fuel =>
      match skip_ws s with
      | [] => None
      | c :: r =>
          if Ascii.eqb c "n"%char then
            r' ← expect (list_ascii_of_string "ull") r; Some (JNull, r')
          else if Ascii.eqb c "t"%char then
            r' ← expect (list_ascii_of_string "rue") r; Some (JBool true, r')
          else if Ascii.eqb c "f"%char then
            r' ← expect (list_ascii_of_string "alse") r; Some (JBool false, r')
          else if Ascii.eqb c "034"%char then
            '(str, r') ← read_string r; Some (JStr (string_of_list_ascii str), r')
          else if Ascii.eqb c "["%char then
            match skip_ws r with
            | d :: r' =>
                if Ascii.eqb d "]"%char then Some (JArr [], r')
                else '(items, r'') ← read_items fuel r; Some (JArr items, r'')
            | [] => None
            end
          else if Ascii.eqb c "{"%char then
            match skip_ws r with
            | d :: r' =>
                if Ascii.eqb d "}"%char then Some (JObj [], r')
                else '(props, r'') ← read_members fuel r; Some (JObj props, r'')
            | [] => None
            end
          else read_number (c :: r)
      end
  end
with read_items (fuel : nat) (s : text) : option (list json * text) :=
  match fuel with
  | O => None
  | S fuel =>
      '(v, r) ← read_value fuel s;
      match skip_ws r with
      | c :: r' =>
          if Ascii.eqb c ","%char then
            '(vs, r'') ← read_items fuel r'; Some (v :: vs, r'')
          else if Ascii.eqb c "]"%char then Some ([v], r')
          else None
      | [] => None
      end
  end
with read_members (fuel : nat) (s : text) : option (list (string * json) * text) :=
  match fuel with
  | O => None
  | S fuel =>
      match skip_ws s with
      | q :: r0 =>
          if Ascii.eqb q "034"%char then
            '(k, r1) ← read_string r0;
            match skip_ws r1 with
            | c :: r2 =>
                if Ascii.eqb c ":"%char then
                  '(v, r3) ← read_value fuel r2;
                  match skip_ws r3 with
                  | d :: r4 =>
                      if Ascii.eqb d ","%char then
                        '(kvs, r5) ← read_members fuel r4;
                        Some ((string_of_list_ascii k, v) :: kvs, r5)
                      else if Ascii.eqb d "}"%char then
                        Some ([(string_of_list_ascii k, v)], r4)
                      else None
                  | [] => None
                  end
                else None
            | [] => None
            end
          else None
      | [] => None
      end
  end.

(** [JSON.parse(s)]; [None] stands for the [SyntaxError] it throws. *)
Definition parse (s : string) : option json :=
  let t := list_ascii_of_string s in
  '(v, r) ← read_value (S (length t)) t;
  match skip_ws r with
  | [] => Some v
  | _ :: _ => None
  end.

(** *** Measures for the round trip *)

Definition is_digit (c : ascii) : bool := bool_decide (is_Some (digit_of c)).

(** Fuel that suffices to read a value back: one unit per value and one per
    element or member. *)
Fixpoint need (j : json) : nat :=
  match j with
  | JArr items => S (sum_list (map (λ x, S (need x)) items))
  | JObj props => S (sum_list (map (λ kv, S (need kv.2)) props))
  | _ => 1
  end.

Definition roundtrips (v : json) : Prop :=
  ∀ (fuel : nat) (rest : text), (need v ≤ fuel)%nat → number_end rest = true →
    read_value fuel (print v ++ rest) = Some (v, rest).

Definition start_chars : text :=
  "034"%char :: list_ascii_of_string "ntf[{-0123456789".

Abbreviation print_member :=
  (λ kv : string * json, ","%char :: print_string kv.1 ++ ":"%char :: print kv.2)%list.

(** *** Reading back what was written *)

Lemma read_digits_stop rest :
  number_end rest = true → read_digits rest = (Nil, rest).
Proof.
  destruct rest as [|c r]; [done|]. simpl.
  destruct (digit_of c); [|done].
  rewrite bool_decide_eq_true_2 by eauto. done.
Qed.

Lemma read_digits_print u rest :
  number_end rest = true → read_digits (print_uint u ++ rest) = (u, rest).
Proof.
  intros Hend. induction u; simpl; [by apply read_digits_stop|..]; by rewrite IHu.
Qed.

Lemma nzhead_not_D0 d : match nzhead d with D0 _ => False | _ => True end.
Proof. induction d; simpl; auto. Qed.

Lemma int_part_ok_to_uint n : int_part_ok (N.to_uint n) = true.
Proof.
  rewrite <- (DecimalN.Unsigned.of_to n) at 1.
  rewrite DecimalN.Unsigned.to_of. unfold unorm.
  pose proof (nzhead_not_D0 (N.to_uint n)) as H.
  destruct (nzhead (N.to_uint n)); done.
Qed.

Lemma print_uint_head u :
  int_part_ok u = true → ∃ c t, print_uint u = c :: t ∧ is_digit c = true.
Proof. destruct u; simpl; [done|..]; intros _; eexists _, _; split; done. Qed.

Lemma read_number_print n rest :
  number_end rest = true → read_number (print_number n ++ rest) = Some (JNum n, rest).
Proof.
  intros Hend. unfold print_number, read_number.
  destruct (Z.ltb_spec n 0) as [Hn|Hn].
  - simpl. rewrite read_digits_print by done.
    rewrite int_part_ok_to_uint, Hend. simpl.
    rewrite DecimalN.Unsigned.of_to. do 3 f_equal. lia.
  - destruct (print_uint_head _ (int_part_ok_to_uint (Z.to_N n))) as (c & t & Ht & Hc).
    pose proof (read_digits_print (N.to_uint (Z.to_N n)) rest Hend) as Hr.
    rewrite Ht in *. change ((c :: t) ++ rest)%list with (c :: (t ++ rest)%list) in *.
    cbv beta iota.
    replace (Ascii.eqb c "-"%char) with false; cycle 1.
    { destruct (Ascii.eqb_spec c "-"%char) as [->|]; done. }
    rewrite Hr, int_part_ok_to_uint, Hend. simpl.
    rewrite DecimalN.Unsigned.of_to. do 3 f_equal. lia.
Qed.

Lemma read_string_escape c t :
  read_string (escape_char c ++ t) = prepend c (read_string t).
Proof. destruct c as [[] [] [] [] [] [] [] []]; reflexivity. Qed.

Lemma read_string_print l rest :
  read_string (flat_map escape_char l ++ "034"%char :: rest) = Some (l, rest).
Proof.
  induction l as [|c l IH]; simpl; [done|].
  by rewrite <- app_assoc, read_string_escape, IH.
Qed.

Lemma start_chars_facts c :
  c ∈ start_chars →
  is_ws c = false ∧ Ascii.eqb c "]"%char = false ∧ Ascii.eqb c "}"%char = false.
Proof.
  unfold start_chars. simpl. intros H.
  repeat (apply elem_of_cons in H as [->|H]; [done|]).
  by apply elem_of_nil in H.
Qed.

Lemma is_digit_cases c :
  is_digit c = true → c ∈ list_ascii_of_string "0123456789".
Proof.
  unfold is_digit, digit_of. intros H. apply bool_decide_eq_true in H. revert H.
  repeat match goal with
         | |- context [Ascii.eqb c ?d] =>
             destruct (Ascii.eqb_spec c d) as [->|_]; [intros _; simpl; repeat constructor|]
         end.
  by intros [].
Qed.

Lemma print_head v : ∃ c t, print v = c :: t ∧ c ∈ start_chars.
Proof.
  destruct v as [|[]|n|s|items|props]; simpl;
    try (eexists _, _; split; [reflexivity|]; unfold start_chars; simpl; repeat constructor).
  unfold print_number. destruct (n <? 0)%Z.
  - eexists _, _; split; [reflexivity|]. unfold start_chars; simpl; repeat constructor.
  - destruct (print_uint_head _ (int_part_ok_to_uint (Z.to_N n))) as (c & t & -> & Hc).
    exists c, t. split; [done|]. apply is_digit_cases in Hc.
    unfold start_chars. simpl in *.
    repeat (apply elem_of_cons in Hc as [->|Hc]; [repeat constructor|]).
    by apply elem_of_nil in Hc.
Qed.

Lemma read_value_number f c r :
  is_digit c = true ∨ c = "-"%char →
  read_value (S f) (c :: r) = read_number (c :: r).
Proof.
  intros [H| ->]; [|done].
  apply is_digit_cases in H. simpl in H.
  repeat (apply elem_of_cons in H as [->|H]; [done|]).
  by apply elem_of_nil in H.
Qed.

Lemma skip_ws_head c t : is_ws c = false → skip_ws (c :: t) = c :: t.
Proof. intros H. simpl. by rewrite H. Qed.

Lemma skip_ws_print v rest : skip_ws (print v ++ rest) = (print v ++ rest)%list.
Proof.
  destruct (print_head v) as (c & t & -> & Hc).
  apply skip_ws_head. by apply start_chars_facts.
Qed.

Lemma read_items_more f s v T :
  read_value f s = Some (v, ","%char :: T) →
  read_items (S f) s = '(vs, r) ← read_items f T; Some (v :: vs, r).
Proof. intros H. simpl. by rewrite H. Qed.

Lemma read_items_last f s v rest :
  read_value f s = Some (v, "]"%char :: rest) →
  read_items (S f) s = Some ([v], rest).
Proof. intros H. simpl. by rewrite H. Qed.

Lemma read_items_print l : ∀ x (fuel : nat) (rest : text),
  roundtrips x → Forall roundtrips l →
  (sum_list (map (λ y, S (need y)) (x :: l)) ≤ fuel)%nat →
  read_items fuel
    (print x ++ flat_map (λ y, ","%char :: print y) l ++ "]"%char :: rest) =
  Some (x :: l, rest).
Proof.
  induction l as [|y l IH]; intros x fuel rest Hx Hl Hfuel;
    (destruct fuel as [|f]; [simpl in Hfuel; lia|]).
  - apply read_items_last, Hx; [simpl in Hfuel; lia|done].
  - apply Forall_cons in Hl as [Hy Hl].
    rewrite (read_items_more f _ x
      (print y ++ flat_map (λ y0, ","%char :: print y0) l ++ "]"%char :: rest)).
    + rewrite IH; [done|done|done|]. simpl in *. lia.
    + rewrite <- (Hx f); [|simpl in *; lia|done].
      f_equal. simpl. by rewrite <- app_assoc.
Qed.

Lemma print_string_app k rest :
  (print_string k ++ rest)%list =
  "034"%char :: (flat_map escape_char (list_ascii_of_string k) ++ "034"%char :: rest)%list.
Proof. unfold print_string. simpl. by rewrite <- app_assoc. Qed.

Lemma read_members_more f k s v T :
  read_value f s = Some (v, ","%char :: T) →
  read_members (S f) (print_string k ++ ":"%char :: s) =
    '(kvs, r) ← read_members f T; Some ((k, v) :: kvs, r).
Proof.
  intros H. rewrite print_string_app. simpl.
  rewrite read_string_print. simpl. rewrite H. simpl.
  by rewrite string_of_list_ascii_of_string.
Qed.

Lemma read_members_last f k s v rest :
  read_value f s = Some (v, "}"%char :: rest) →
  read_members (S f) (print_string k ++ ":"%char :: s) = Some ([(k, v)], rest).
Proof.
  intros H. rewrite print_string_app. simpl.
  rewrite read_string_print. simpl. rewrite H. simpl.
  by rewrite string_of_list_ascii_of_string.
Qed.

Lemma read_members_print l : ∀ k v (fuel : nat) (rest : text),
  roundtrips v → Forall (λ kv, roundtrips kv.2) l →
  (sum_list (map (λ kv, S (need kv.2)) ((k, v) :: l)) ≤ fuel)%nat →
  read_members fuel
    (print_string k ++ ":"%char :: print v ++
       flat_map print_member l ++ "}"%char :: rest) =
  Some ((k, v) :: l, rest).
Proof.
  induction l as [|[k' v'] l IH]; intros k v fuel rest Hv Hl Hfuel;
    (destruct fuel as [|f]; [simpl in Hfuel; lia|]).
  - apply read_members_last, Hv; [simpl in Hfuel; lia|done].
  - apply Forall_cons in Hl as [Hv' Hl]. simpl in Hv'.
    rewrite (read_members_more f k _ v
      (print_string k' ++ ":"%char :: print v' ++
         flat_map print_member l ++ "}"%char :: rest)).
    + rewrite IH; [done|done|done|]. simpl in *. lia.
    + rewrite <- (Hv f); [|simpl in *; lia|done].
      f_equal. simpl. by rewrite <- !app_assoc.
Qed.

Lemma print_number_head n :
  ∃ c t, print_number n = c :: t ∧ (is_digit c = true ∨ c = "-"%char).
Proof.
  unfold print_number. destruct (n <? 0)%Z; [by eauto|].
  destruct (print_uint_head _ (int_part_ok_to_uint (Z.to_N n))) as (c & t & -> & Hc).
  eauto.
Qed.

Lemma read_value_array f r :
  (∃ c t, r = c :: t ∧ c ∈ start_chars) →
  read_value (S f) ("["%char :: r) =
    '(items, r') ← read_items f r; Some (JArr items, r').
Proof.
  intros (c & t & -> & Hc). apply start_chars_facts in Hc as (Hws & Hc & _).
  simpl. by rewrite Hws, Hc.
Qed.

Lemma read_value_object f r :
  read_value (S f) ("{"%char :: "034"%char :: r) =
    '(props, r') ← read_members f ("034"%char :: r); Some (JObj props, r').
Proof. reflexivity. Qed.

Theorem read_value_print v : roundtrips v.
Proof.
  induction v as [|b|n|s|items IH|props IH] using json_ind;
    intros fuel rest Hfuel Hend;
    (destruct fuel as [|f]; [simpl in Hfuel; lia|]).
  - reflexivity.
  - by destruct b.
  - destruct (print_number_head n) as (c & t & E & Hc).
    pose proof (read_number_print n rest Hend) as Hn.
    simpl print. rewrite E in *.
    change ((c :: t) ++ rest)%list with (c :: (t ++ rest)%list) in *.
    by rewrite read_value_number.
  - simpl print. rewrite print_string_app. simpl.
    by rewrite read_string_print; simpl; rewrite string_of_list_ascii_of_string.
  - destruct items as [|x l]; [reflexivity|].
    apply Forall_cons in IH as [Hx Hl].
    change (print (JArr (x :: l)) ++ rest)%list
      with ("["%char :: ((print x ++ flat_map (λ y, ","%char :: print y) l) ++
              ["]"%char]) ++ rest)%list.
    rewrite <- !app_assoc. rewrite read_value_array.
    + simpl app. rewrite read_items_print; [done|done|done|]. simpl in *. lia.
    + destruct (print_head x) as (c & t & -> & Hc). eauto.
  - destruct props as [|[k v] l]; [reflexivity|].
    apply Forall_cons in IH as [Hv Hl]. simpl in Hv.
    replace (print (JObj ((k, v) :: l)) ++ rest)%list
      with ("{"%char :: print_string k ++ ":"%char :: print v ++
              flat_map print_member l ++ "}"%char :: rest)%list; cycle 1.
    { simpl. by rewrite <- !app_assoc. }
    rewrite print_string_app, read_value_object, <- print_string_app.
    rewrite read_members_print; [done|done|done|]. simpl in *. lia.
Qed.

Local Ltac lengths := repeat (rewrite length_app || simpl length).

Lemma need_items_le l :
  Forall (λ y, need y ≤ length (print y))%nat l →
  (sum_list (map (λ y, S (need y)) l) ≤
     length (flat_map (λ y, ","%char :: print y) l))%nat.
Proof. induction 1; simpl; [lia|]. lengths. lia. Qed.

Lemma need_members_le (l : list (string * json)) :
  Forall (λ kv, need kv.2 ≤ length (print kv.2))%nat l →
  (sum_list (map (λ kv, S (need kv.2)) l) ≤ length (flat_map print_member l))%nat.
Proof.
  induction 1 as [|[k v] l Hv Hl IH]; [simpl; lia|].
  change (flat_map print_member ((k, v) :: l))
    with (print_member (k, v) ++ flat_map print_member l)%list.
  rewrite length_app. simpl in *. rewrite length_app. simpl. lia.
Qed.

Lemma need_le_length v : (need v ≤ length (print v))%nat.
Proof.
  induction v as [|b|n|s|items IH|props IH] using json_ind; simpl.
  - lia.
  - destruct b; simpl; lia.
  - destruct (print_number_head n) as (c & t & -> & _). simpl. lia.
  - lia.
  - destruct items as [|x l]; simpl; [lia|].
    apply Forall_cons in IH as [Hx Hl]. apply need_items_le in Hl.
    lengths. lia.
  - destruct props as [|[k v] l]; [simpl; lia|].
    apply Forall_cons in IH as [Hv Hl]. apply need_members_le in Hl.
    simpl in *. lengths. lia.
Qed.

(** [JSON.parse(JSON.stringify(v))] is [v]. *)
Theorem parse_stringify v : parse (stringify v) = Some v.
Proof.
  unfold parse, stringify. rewrite list_ascii_of_string_of_list_ascii.
  pose proof (read_value_print v (S (length (print v))) [] ) as H.
  rewrite app_nil_r in H. rewrite H; [done| |done].
  pose proof (need_le_length v). lia.
Qed.

End Json.

(** ** JavaScript values read back from JSON *)

Module JsValue.
Import Json.

(** [!!v]: what [if (v)] and [v || w] test. *)
Definition truthy (v : json) : bool :=
  match v with
  | JNull => false
  | JBool b => b
  | JNum n => negb (n =? 0)%Z
  | JStr s => negb (String.eqb s "")
  | JArr _ | JObj _ => true
  end.

(** The object [JSON.parse] builds from the properties it read, in text
    order: a repeated key keeps its last value. *)
Definition props_map (props : list (string * json)) : gmap string json :=
  list_to_map (reverse props).

(** An object held as a map, written back as a JSON object. *)
Definition of_map (m : gmap string json) : json := JObj (map_to_list m).

Definition indexed {A} (f : A → json) (l : list A) : gmap string json :=
  list_to_map (imap (λ i x, (pretty i, f x)) l).

(** The own enumerable properties of a value, as [{...v}] and
    [Object.keys(v)] see them. *)
Definition own_props (v : json) : gmap string json :=
  match v with
  | JObj props => props_map props
  | JArr items => indexed id items
  | JStr s => indexed (λ c, JStr (String c "")) (list_ascii_of_string s)
  | JNull | JBool _ | JNum _ => ∅
  end.

(** [v[k]] among the own properties of [v]: [None] is the [TypeError] of
    reading a property of [null]; [Some None] is [undefined].  This is the
    whole of the read for the keys [status] and [weights] of a response,
    names that no built-in prototype holds; for a key that may be inherited
    the read goes on as in [get_member] below. *)
Definition get (v : json) (k : string) : option (option json) :=
  match v with
  | JNull => None
  | JArr items =>
      if String.eqb k "length" then Some (Some (JNum (Z.of_nat (length items))))
      else Some (own_props v !! k)
  | JStr s =>
      if String.eqb k "length" then Some (Some (JNum (Z.of_nat (String.length s))))
      else Some (own_props v !! k)
  | _ => Some (own_props v !! k)
  end.

(** [{...a, ...b}] *)
Definition spread2 (a b : json) : gmap string json := own_props b ∪ own_props a.

(** [v === w] for a string [w]. *)
Definition is_string (w : string) (v : json) : bool :=
  match v with
  | JStr s => String.eqb s w
  | _ => false
  end.

(** [items.indexOf(w)] for a string [w]; [None] is [-1]. *)
Fixpoint indexOf (items : list json) (w : string) : option nat :=
  match items with
  | [] => None
  | v :: rest => if is_string w v then Some 0 else S <$> indexOf rest w
  end.

(** The string-keyed members of [Object.prototype] (ECMA-262, 20.1.3 and
    B.2.2).  Each is a function, but [__proto__]: an accessor whose getter
    answers the prototype of the object it is read from, and whose setter
    replaces that prototype or does nothing. *)
Definition Object_prototype : list string :=
  [ "constructor"; "hasOwnProperty"; "isPrototypeOf"; "propertyIsEnumerable";
    "toLocaleString"; "toString"; "valueOf"; "__proto__";
    "__defineGetter__"; "__defineSetter__"; "__lookupGetter__"; "__lookupSetter__" ].

(** The prototypes that stand between a value and [Object.prototype]. *)
Inductive builtin := ArrayPrototype | StringPrototype | NumberPrototype | BooleanPrototype.

Definition prototype_of (v : json) : option builtin :=
  match v with
  | JArr _ => Some ArrayPrototype
  | JStr _ => Some StringPrototype
  | JNum _ => Some NumberPrototype
  | JBool _ => Some BooleanPrototype
  | JNull | JObj _ => None
  end.

(** What reading a property gives: a value that JSON holds, or the member
    [k] of a built-in prototype, a function or a prototype object, which is
    truthy and which JSON does not hold. *)
Inductive value :=
| Data (v : json)
| Inherited (k : string).

(** [v[k]] for any key: an own property first, then the prototype chain;
    [members] lists the string-keyed members of the prototypes other than
    [Object.prototype].  [None] is the [TypeError] of reading a property of
    [null]; [Some None] is [undefined]. *)
Definition get_member (members : builtin → list string) (v : json) (k : string)
    : option (option value) :=
  match get v k with
  | None => None
  | Some (Some x) => Some (Some (Data x))
  | Some None =>
      if bool_decide (k ∈ default [] (members <$> prototype_of v) ++ Object_prototype)
      then Some (Some (Inherited k))
      else Some None
  end.

(** [Object.assign(target, src)] on the own properties of an ordinary
    object.  Each key of [src] is assigned, which makes or updates an own
    property of [target]; but [__proto__], where [target] does not have it
    as an own property, reaches the setter of [Object.prototype] and leaves
    no own property behind. *)
Definition assign_props (target src : gmap string json) : gmap string json :=
  (if bool_decide (is_Some (target !! "__proto__")) then src else delete "__proto__" src)
  ∪ target.

Lemma is_string_true w v : is_string w v = true ↔ v = JStr w.
Proof.
  destruct v; simpl; try (split; [done|by intros [=]]).
  rewrite String.eqb_eq. split; [by intros ->|by intros [= ->]].
Qed.

Lemma indexOf_None items w : indexOf items w = None ↔ JStr w ∉ items.
Proof.
  induction items as [|v rest IH]; simpl.
  - split; [intros _; apply not_elem_of_nil|done].
  - rewrite not_elem_of_cons. destruct (is_string w v) eqn:E.
    + apply is_string_true in E as ->. split; [done|]. by intros [? _].
    + destruct (indexOf rest w) eqn:Ei; simpl.
      * split; [done|]. intros [_ H]. by apply IH in H.
      * split; [|done]. intros _. split; [|by apply IH].
        intros <-. by rewrite (proj2 (is_string_true w (JStr w))) in E.
Qed.

(** [indexOf] finds the first occurrence, and [delete] at that index takes
    exactly it out. *)
Lemma indexOf_Some items w i :
  indexOf items w = Some i →
  ∃ before after,
    items = before ++ JStr w :: after ∧ (JStr w ∉ before) ∧
    length before = i ∧ delete i items = before ++ after.
Proof.
  revert i. induction items as [|v rest IH]; simpl; [done|]. intros i.
  destruct (is_string w v) eqn:E.
  - intros [= <-]. apply is_string_true in E as ->.
    exists [], rest. split_and!; [done|apply not_elem_of_nil|done|done].
  - destruct (indexOf rest w) as [j|] eqn:Ei; simpl; [|done].
    intros [= <-]. destruct (IH j eq_refl) as (b & a & -> & Hb & <- & Hd).
    exists (v :: b), a. split_and!; [done| |done|simpl; by rewrite Hd].
    apply not_elem_of_cons. split; [|done].
    intros <-. by rewrite (proj2 (is_string_true w (JStr w))) in E.
Qed.

Lemma props_map_to_list (m : gmap string json) : props_map (map_to_list m) = m.
Proof.
  unfold props_map.
  rewrite <- (list_to_map_to_list m) at 2.
  apply list_to_map_proper; [|apply reverse_Permutation].
  rewrite fmap_reverse, reverse_Permutation. apply NoDup_fst_map_to_list.
Qed.

Lemma own_props_of_map m : own_props (of_map m) = m.
Proof. apply props_map_to_list. Qed.

Lemma get_member_object members props k :
  get_member members (JObj props) k =
    Some (match props_map props !! k with
          | Some v => Some (Data v)
          | None => if bool_decide (k ∈ Object_prototype) then Some (Inherited k) else None
          end).
Proof.
  unfold get_member. cbn [get own_props prototype_of fmap option_fmap option_map default].
  destruct (props_map props !! k); [done|]. cbn [app]. by case_bool_decide.
Qed.

(** The setter is reached only by the key [__proto__], and only where the
    target does not own that key. *)
Lemma assign_props_lookup target src k :
  assign_props target src !! k =
    if bool_decide (k = "__proto__" ∧ target !! k = None) then target !! k
    else match src !! k with
         | Some v => Some v
         | None => target !! k
         end.
Proof.
  unfold assign_props. rewrite lookup_union.
  destruct (decide (k = "__proto__")) as [->|Hne].
  - destruct (target !! "__proto__") as [x|] eqn:Ht.
    + rewrite bool_decide_eq_true_2 by (by eexists).
      rewrite bool_decide_eq_false_2 by (by intros [_ ?]).
      by destruct (src !! "__proto__").
    + rewrite bool_decide_eq_false_2 by (by intros [? ?]).
      rewrite bool_decide_eq_true_2 by done.
      by rewrite lookup_delete_eq.
  - rewrite (bool_decide_eq_false_2 (k = "__proto__" ∧ _)) by (by intros [? _]).
    case_bool_decide.
    + by destruct (src !! k), (target !! k).
    + rewrite lookup_delete_ne by done. by destruct (src !! k), (target !! k).
Qed.

Lemma assign_props_empty src : assign_props ∅ src = delete "__proto__" src.
Proof.
  unfold assign_props. rewrite lookup_empty.
  rewrite bool_decide_eq_false_2 by (by intros [? ?]).
  by rewrite (right_id_L ∅ (∪)).
Qed.

End JsValue.

(** ** What the scripts see of the browser *)

Module Browser.

(** [response.ok]: the status is in the range 200-299. *)
Definition response_ok (status : Z) : bool :=
  (200 <=? status)%Z && (status <=? 299)%Z.

(** An anchor element, as far as the click handlers look at it:
    [getAttribute('href')], [target] and [hasAttribute('download')]. *)
Record anchor := { href : option string; target : string; download : bool }.

End Browser.

(** ** Workout history, favorites and exercise weights *)

Module Workout.
Import Json JsValue Browser.

(** [STORAGE_KEYS], and the key the login code owns. *)
Definition HISTORY : string := "viltrum_workout_history".
Definition FAVORITES : string := "viltrum_favorites".
Definition WEIGHTS : string := "viltrum_exercise_weights".
Definition FIRST_TIME : string := "viltrum_first_time_user".
Definition WEIGHTS_SYNCED : string := "viltrum_weights_last_sync".
Definition LOGGED_USER : string := "loggedUser".

(** A GET request: the endpoint and the query parameters appended to it. *)
Record request := { endpoint : string; query : list (string * string) }.

(** What the module reads and writes: [localStorage], and the requests it
    has handed to [fetch], oldest first. *)
Record world := { storage : gmap string string; sent : list request }.

Definition getItem (k : string) (st : world) : option string := storage st !! k.

Definition setItem (k v : string) (st : world) : world :=
  {| storage := <[k := v]> (storage st); sent := sent st |}.

Definition removeItem (k : string) (st : world) : world :=
  {| storage := delete k (storage st); sent := sent st |}.

Definition fetch (r : request) (st : world) : world :=
  {| storage := storage st; sent := sent st ++ [r] |}.

(** How a [fetch] settles: it rejects, or it answers with a status and a
    body ([None]: reading the body rejects). *)
Inductive fetch_outcome :=
| NetworkError
| Response (status : Z) (body : option string).

(** The two readings of the clock taken by [addWorkoutToHistory]:
    [Date.now()] and [new Date().toISOString()]. *)
Record clock := { now_ms : Z; now_iso : string }.

Section Persistence.

(** The endpoint exported by [config.js], taken to be a well-formed URL. *)
Variable GOOGLE_SCRIPT_URL : string.

(** [Object.assign] into an array (index keys, [length]) is left to the
    platform: the weights record is an object whenever this module wrote
    it. *)
Variable assign_into_array : list json → gmap string json → option json.

(** The string-keyed members of [Array.prototype], [String.prototype],
    [Number.prototype] and [Boolean.prototype]; engines differ in them. *)
Variable prototype_members : builtin → list string.

(** [Object.assign(target, src)] as the caller sees [target] afterwards;
    [None] is a [TypeError].  On an object every key is assigned as in
    [assign_props]; a number or a boolean is boxed and the box dropped; the
    characters and the length of a string are read-only. *)
Definition Object_assign (target : json) (src : gmap string json) : option json :=
  match target with
  | JObj props => Some (of_map (assign_props (props_map props) src))
  | JNull => None
  | JNum _ | JBool _ => Some target
  | JStr s =>
      if bool_decide (map_Forall (λ k _, own_props target !! k = None ∧ k ≠ "length") src)
      then Some target else None
  | JArr items => assign_into_array items src
  end.

Definition getCurrentUserEmail (st : world) : option string := getItem LOGGED_USER st.

(** *** Cloud sync *)

(** [syncWeightsToCloud] up to its [await fetch]: [Some b] when it returns
    [b] without fetching, [None] when the request is under way. *)
Definition syncWeightsToCloud_begin (weights : json) (st : world) : world * option bool :=
  match getCurrentUserEmail st with
  | None => (st, Some false)
  | Some userEmail =>
      if String.eqb userEmail "" then (st, Some false)
      else
        match weights with
        | JNull => (st, Some false)
        | _ =>
            (fetch {| endpoint := GOOGLE_SCRIPT_URL;
                      query := [("action", "saveWeights"); ("email", userEmail);
                                ("weights", stringify weights)] |} st,
             None)
        end
  end.

(** The handler [catch (parseError)] of [syncWeightsToCloud]. *)
Definition sync_parse_failed (now : string) (status : Z) (text : string) (st : world)
    : world * bool :=
  if JsString.includes text "success" || response_ok status
  then (setItem WEIGHTS_SYNCED now st, true)
  else (st, false).

(** [syncWeightsToCloud] from the moment its fetch settles; [now] is
    [new Date().toISOString()]. *)
Definition syncWeightsToCloud_resume (now : string) (o : fetch_outcome) (st : world)
    : world * bool :=
  match o with
  | NetworkError => (st, false)
  | Response status body =>
      if negb (response_ok status) then (st, false)
      else
        match body with
        | None => (st, false)
        | Some text =>
            match parse text with
            | None => sync_parse_failed now status text st
            | Some result =>
                match get result "status" with
                | None => sync_parse_failed now status text st
                | Some (Some (JStr "success")) => (setItem WEIGHTS_SYNCED now st, true)
                | Some _ => (st, false)
                end
            end
        end
  end.

(** A whole [syncWeightsToCloud(weights)] call whose fetch, if it makes
    one, settles as [o]. *)
Definition syncWeightsToCloud (now : string) (o : fetch_outcome) (weights : json)
    (st : world) : world * bool :=
  match syncWeightsToCloud_begin weights st with
  | (st1, Some b) => (st1, b)
  | (st1, None) => syncWeightsToCloud_resume now o st1
  end.

(** *** Exercise weights *)

Definition getExerciseWeightsLocal (st : world) : json :=
  match getItem WEIGHTS st with
  | None => JObj []
  | Some weights =>
      if String.eqb weights "" then JObj []
      else match parse weights with
           | Some v => v
           | None => JObj []
           end
  end.

Definition getExerciseWeights (st : world) : json := getExerciseWeightsLocal st.

(** [getExerciseWeight]; [None] is the [TypeError] it lets through when
    the stored record is [null].  A name that the record does not own is
    looked up on its prototype chain, and what is found there is truthy. *)
Definition getExerciseWeight (exerciseName : string) (st : world) : option value :=
  match get_member prototype_members (getExerciseWeights st) exerciseName with
  | None => None
  | Some None => Some (Data JNull)
  | Some (Some (Data v)) => Some (Data (if truthy v then v else JNull))
  | Some (Some (Inherited k)) => Some (Inherited k)
  end.


(** [loadWeightsFromCloud] up to its [await fetch]. *)
Definition loadWeightsFromCloud_begin (st : world)
    : world * option (option (gmap string json)) :=
  match getCurrentUserEmail st with
  | None => (st, Some None)
  | Some userEmail =>
      if String.eqb userEmail "" then (st, Some None)
      else
        (fetch {| endpoint := GOOGLE_SCRIPT_URL;
                  query := [("action", "getWeights"); ("email", userEmail)] |} st,
         None)
  end.

(** [loadWeightsFromCloud] from the moment its fetch settles; [None] is
    the [null] it returns. *)
Definition loadWeightsFromCloud_resume (o : fetch_outcome) (st : world)
    : world * option (gmap string json) :=
  match o with
  | NetworkError | Response _ None => (st, None)
  | Response _ (Some text) =>
      match parse text with
      | None => (st, None)
      | Some result =>
          match get result "status", get result "weights" with
          | Some (Some (JStr "success")), Some (Some weights) =>
              if truthy weights then
                let localWeights := getExerciseWeightsLocal st in
                let mergedWeights := spread2 localWeights weights in
                (setItem WEIGHTS (stringify (of_map mergedWeights)) st,
                 Some mergedWeights)
              else (st, None)
          | _, _ => (st, None)
          end
      end
  end.

(** A whole [loadWeightsFromCloud()] call whose fetch, if it makes one,
    settles as [o]. *)
Definition loadWeightsFromCloud (o : fetch_outcome) (st : world)
    : world * option (gmap string json) :=
  match loadWeightsFromCloud_begin st with
  | (st1, Some r) => (st1, r)
  | (st1, None) => loadWeightsFromCloud_resume o st1
  end.

(** [updateExerciseWeights] up to the [await] inside
    [syncWeightsToCloud]. *)
Definition updateExerciseWeights_begin (newWeights : gmap string json) (st : world)
    : world * option bool :=
  match Object_assign (getExerciseWeights st) newWeights with
  | None => (st, Some false)
  | Some weights =>
      syncWeightsToCloud_begin weights (setItem WEIGHTS (stringify weights) st)
  end.

(** *** History *)

Definition getWorkoutHistory (st : world) : json :=
  match getItem HISTORY st with
  | None => JArr []
  | Some history =>
      if String.eqb history "" then JArr []
      else match parse history with
           | Some v => v
           | None => JArr []
           end
  end.

Definition history_entry (t : clock) (workoutName : string) (duration : Z)
    (exerciseWeights : gmap string json) : json :=
  JObj [("id", JNum (now_ms t)); ("workoutName", JStr workoutName);
        ("duration", JNum duration); ("completedAt", JStr (now_iso t));
        ("exerciseWeights", of_map exerciseWeights)].

(** [addWorkoutToHistory]: the entry it returns, [None] for [null].  The
    weights update it starts is not awaited; its synchronous part runs
    before the function returns. *)
Definition addWorkoutToHistory (t : clock) (workoutName : string) (duration : Z)
    (exerciseWeights : gmap string json) (st : world) : world * option json :=
  match getWorkoutHistory st with
  | JArr history =>
      let entry := history_entry t workoutName duration exerciseWeights in
      let history := entry :: history in
      let history := if 100 <? length history then take 100 history else history in
      let st := setItem HISTORY (stringify (JArr history)) st in
      let st :=
        if 0 <? size exerciseWeights
        then (updateExerciseWeights_begin exerciseWeights st).1
        else st in
      (st, Some entry)
  | _ => (st, None)
  end.

(** One call of [addWorkoutToHistory]: its arguments and the clock it
    reads. *)
Record call := {
  call_clock : clock;
  call_name : string;
  call_duration : Z;
  call_weights : gmap string json
}.

Definition entry_of (c : call) : json :=
  history_entry (call_clock c) (call_name c) (call_duration c) (call_weights c).

Definition add (c : call) (st : world) : world * option json :=
  addWorkoutToHistory (call_clock c) (call_name c) (call_duration c) (call_weights c) st.

(** The calls of [cs] one after the other, with what each returned. *)
Fixpoint add_all (cs : list call) (st : world) : world * list (option json) :=
  match cs with
  | [] => (st, [])
  | c :: cs' =>
      let '(st1, r) := add c st in
      let '(st2, rs) := add_all cs' st1 in
      (st2, r :: rs)
  end.

(** *** Favorites *)

Definition getFavorites (st : world) : json :=
  match getItem FAVORITES st with
  | None => JArr []
  | Some favorites =>
      if String.eqb favorites "" then JArr []
      else match parse favorites with
           | Some v => v
           | None => JArr []
           end
  end.

(** [toggleFavorite]: on anything but an array the [push] or [splice]
    throws and the handler answers [false]. *)
Definition toggleFavorite (workoutName : string) (st : world) : world * bool :=
  match getFavorites st with
  | JArr favorites =>
      match indexOf favorites workoutName with
      | None =>
          (setItem FAVORITES (stringify (JArr (favorites ++ [JStr workoutName]))) st, true)
      | Some index =>
          (setItem FAVORITES (stringify (JArr (delete index favorites))) st, false)
      end
  | _ => (st, false)
  end.


(** *** The rest of the module *)

(** [clearWorkoutHistory] *)
Definition clearWorkoutHistory (st : world) : world := removeItem HISTORY st.

(** [clearExerciseWeights] *)
Definition clearExerciseWeights (st : world) : world := removeItem WEIGHTS st.

(** [isFavorite]: [includes] on the stored array, or on the stored string;
    [None] is the [TypeError] it lets through on any other record. *)
Definition isFavorite (workoutName : string) (st : world) : option bool :=
  match getFavorites st with
  | JArr favorites => Some (existsb (is_string workoutName) favorites)
  | JStr s => Some (JsString.includes s workoutName)
  | _ => None
  end.

(** A whole [updateExerciseWeights(newWeights)] call whose fetch, if it
    makes one, settles as [o]. *)
Definition updateExerciseWeights (now : string) (o : fetch_outcome)
    (newWeights : gmap string json) (st : world) : world * bool :=
  match updateExerciseWeights_begin newWeights st with
  | (st1, Some b) => (st1, b)
  | (st1, None) => syncWeightsToCloud_resume now o st1
  end.

(** [initializeWeightsSync], with the fetch of its [loadWeightsFromCloud]
    settling as [o]; it returns nothing. *)
Definition initializeWeightsSync (o : fetch_outcome) (st : world) : world :=
  match getCurrentUserEmail st with
  | None => st
  | Some userEmail =>
      if String.eqb userEmail "" then st else (loadWeightsFromCloud o st).1
  end.

(** [isFirstTimeUser] *)
Definition isFirstTimeUser (st : world) : bool :=
  match getItem FIRST_TIME st with
  | None => true
  | Some flag => String.eqb flag ""
  end.

(** [markUserAsNotFirstTime] *)
Definition markUserAsNotFirstTime (st : world) : world := setItem FIRST_TIME "true" st.

(** [resetFirstTimeStatus] *)
Definition resetFirstTimeStatus (st : world) : world := removeItem FIRST_TIME st.

(** The user is logged in: [loggedUser] holds a non-empty string. *)
Definition logged (st : world) : bool :=
  match getCurrentUserEmail st with
  | None => false
  | Some userEmail => negb (String.eqb userEmail "")
  end.

(** *** Stores and calls to run the module on *)

(** A JSON text written with an apostrophe for each double quote. *)
Fixpoint json_text (s : string) : string :=
  match s with
  | EmptyString => EmptyString
  | String c s' => String (if Ascii.eqb c "'"%char then "034"%char else c) (json_text s')
  end.

Definition empty_world : world := {| storage := ∅; sent := [] |}.

(** An endpoint and an array assignment to run the module with. *)
Definition example_url : string := "https://script.example/exec".
Definition no_array_assign : list json → gmap string json → option json := λ _ _, None.

(** The members the other built-in prototypes have had since ECMAScript 5,
    to run the module with. *)
Definition example_members (p : builtin) : list string :=
  match p with
  | ArrayPrototype =>
      [ "constructor"; "toString"; "toLocaleString"; "concat"; "join"; "pop"; "push";
        "reverse"; "shift"; "slice"; "sort"; "splice"; "unshift"; "indexOf";
        "lastIndexOf"; "every"; "some"; "forEach"; "map"; "filter"; "reduce";
        "reduceRight" ]
  | StringPrototype =>
      [ "constructor"; "toString"; "valueOf"; "charAt"; "charCodeAt"; "concat";
        "indexOf"; "lastIndexOf"; "localeCompare"; "match"; "replace"; "search";
        "slice"; "split"; "substring"; "toLowerCase"; "toLocaleLowerCase";
        "toUpperCase"; "toLocaleUpperCase"; "trim" ]
  | NumberPrototype =>
      [ "constructor"; "toString"; "toLocaleString"; "valueOf"; "toFixed";
        "toExponential"; "toPrecision" ]
  | BooleanPrototype => [ "constructor"; "toString"; "valueOf" ]
  end.

(** The [n]-th workout of a test run, one second after the one before. *)
Definition nth_call (n : nat) : call :=
  {| call_clock := {| now_ms := 1700000000000 + 1000 * Z.of_nat n;
                      now_iso := "2023-11-14T22:13:20.000Z" |};
     call_name := "Leg Day";
     call_duration := 1800;
     call_weights := if Nat.even n then {[ "Squat" := JStr "100kg" ]} else ∅ |}.

Definition logged_in : world := setItem LOGGED_USER "user@example.com" empty_world.

(** *** Storage facts *)

Lemma getItem_setItem k v st : getItem k (setItem k v st) = Some v.
Proof. apply lookup_insert_eq. Qed.

Lemma getItem_setItem_ne k k' v st : k ≠ k' → getItem k' (setItem k v st) = getItem k' st.
Proof. intros H. by apply lookup_insert_ne. Qed.

Lemma getItem_fetch k r st : getItem k (fetch r st) = getItem k st.
Proof. done. Qed.

Lemma stringify_not_empty v : String.eqb (stringify v) "" = false.
Proof.
  unfold stringify. destruct (print_head v) as (c & t & -> & _). done.
Qed.

(** What was written with [JSON.stringify] is what the getter reads. *)
Lemma getFavorites_stored v st :
  getFavorites (setItem FAVORITES (stringify v) st) = v.
Proof.
  unfold getFavorites. rewrite getItem_setItem, stringify_not_empty.
  by rewrite parse_stringify.
Qed.

Lemma getWorkoutHistory_stored v st :
  getWorkoutHistory (setItem HISTORY (stringify v) st) = v.
Proof.
  unfold getWorkoutHistory. rewrite getItem_setItem, stringify_not_empty.
  by rewrite parse_stringify.
Qed.

Lemma getExerciseWeightsLocal_stored v st :
  getExerciseWeightsLocal (setItem WEIGHTS (stringify v) st) = v.
Proof.
  unfold getExerciseWeightsLocal. rewrite getItem_setItem, stringify_not_empty.
  by rewrite parse_stringify.
Qed.

(** *** History *)

Lemma syncWeightsToCloud_begin_item k weights st :
  getItem k (syncWeightsToCloud_begin weights st).1 = getItem k st.
Proof.
  unfold syncWeightsToCloud_begin. destruct (getCurrentUserEmail st) as [e|]; [|done].
  destruct (String.eqb e ""); [done|]. by destruct weights.
Qed.

Lemma updateExerciseWeights_begin_item k newWeights st :
  k ≠ WEIGHTS →
  getItem k (updateExerciseWeights_begin newWeights st).1 = getItem k st.
Proof.
  intros Hk. unfold updateExerciseWeights_begin.
  destruct (Object_assign _ _); [|done].
  rewrite syncWeightsToCloud_begin_item. by apply getItem_setItem_ne.
Qed.

Lemma getWorkoutHistory_item st st' :
  getItem HISTORY st' = getItem HISTORY st → getWorkoutHistory st' = getWorkoutHistory st.
Proof. unfold getWorkoutHistory. by intros ->. Qed.

Lemma take_cap {A} (l : list A) :
  (if 100 <? length l then take 100 l else l) = take 100 l.
Proof.
  destruct (Nat.ltb_spec 100 (length l)); [done|]. by rewrite take_ge.
Qed.

(** One call on a stored array: the entry goes first and the list is cut
    at 100. *)
Lemma addWorkoutToHistory_array t w d ew st history :
  getWorkoutHistory st = JArr history →
  (addWorkoutToHistory t w d ew st).2 = Some (history_entry t w d ew) ∧
  getWorkoutHistory (addWorkoutToHistory t w d ew st).1 =
    JArr (take 100 (history_entry t w d ew :: history)).
Proof.
  intros Hh. unfold addWorkoutToHistory. rewrite Hh, take_cap.
  split; [done|]. cbn [fst].
  destruct (0 <? size ew).
  - rewrite (getWorkoutHistory_item
      (setItem HISTORY (stringify (JArr (take 100 (history_entry t w d ew :: history)))) st)).
    + apply getWorkoutHistory_stored.
    + by apply updateExerciseWeights_begin_item.
  - apply getWorkoutHistory_stored.
Qed.

(** A call that returns an entry found an array in the store. *)
Lemma addWorkoutToHistory_success t w d ew st :
  is_Some (addWorkoutToHistory t w d ew st).2 →
  ∃ history, getWorkoutHistory st = JArr history.
Proof.
  unfold addWorkoutToHistory.
  destruct (getWorkoutHistory st); simpl; try by intros [? [=]]. eauto.
Qed.

Lemma take_app_take {A} n (l k : list A) : take n (l ++ take n k) = take n (l ++ k).
Proof. rewrite !take_app, take_take. f_equal. f_equal. lia. Qed.

(** The list stored after a run of calls, by recursion on the calls. *)
Lemma add_all_array cs : ∀ st history,
  getWorkoutHistory st = JArr history →
  (add_all cs st).2 = map (λ c, Some (entry_of c)) cs ∧
  ∃ stored,
    getWorkoutHistory (add_all cs st).1 = JArr stored ∧
    take 100 stored = take 100 (reverse (map entry_of cs) ++ history) ∧
    (cs ≠ [] → length stored ≤ 100).
Proof.
  induction cs as [|c cs IH]; intros st history Hh; simpl.
  - split; [done|]. by exists history.
  - destruct (addWorkoutToHistory_array (call_clock c) (call_name c) (call_duration c)
                (call_weights c) st history Hh) as [Hr Hs].
    fold (add c st) in Hr, Hs. destruct (add c st) as [st1 r] eqn:E1.
    cbn [fst snd] in Hr, Hs.
    destruct (IH st1 _ Hs) as (Hrs & stored & Hst & Htake & Hlen).
    destruct (add_all cs st1) as [st2 rs] eqn:E2. cbn [fst snd map] in *.
    split; [by rewrite Hr, Hrs|]. exists stored. split_and!; [done| |].
    + fold (entry_of c) in *.
      rewrite Htake, reverse_cons, <- app_assoc.
      change ([entry_of c] ++ history) with (entry_of c :: history).
      by rewrite take_app_take.
    + intros _. destruct cs as [|c' cs']; [|by apply Hlen].
      simpl in E2. injection E2 as <- <-. rewrite Hs in Hst. injection Hst as <-.
      simpl. rewrite length_take. lia.
Qed.

(** C5. After any run of successful [addWorkoutToHistory] calls the stored
    history holds the entries of the run, newest first, in front of what
    was stored before, cut at 100: its length is at most 100 and the entry
    of the last call is at index 0.  After 101 calls on an empty history
    the length is exactly 100. *)
Theorem addWorkoutToHistory_newest_first_capped cs st :
  cs ≠ [] → Forall is_Some (add_all cs st).2 →
  ∃ older stored,
    getWorkoutHistory st = JArr older ∧
    getWorkoutHistory (add_all cs st).1 = JArr stored ∧
    stored = take 100 (reverse (map entry_of cs) ++ older) ∧
    length stored ≤ 100 ∧
    stored !! 0 = entry_of <$> last cs ∧
    (older = [] → length cs = 101 → length stored = 100).
Proof.
  intros Hcs Hok.
  assert (∃ older, getWorkoutHistory st = JArr older) as [older Hold].
  { destruct cs as [|c cs']; [done|]. simpl in Hok.
    destruct (add c st) as [st1 r] eqn:E1. destruct (add_all cs' st1) as [st2 rs].
    apply Forall_cons in Hok as [Hr _].
    apply (addWorkoutToHistory_success (call_clock c) (call_name c)
             (call_duration c) (call_weights c) st).
    fold (add c st). by rewrite E1. }
  destruct (add_all_array cs st older Hold) as (_ & stored & Hst & Htake & Hlen).
  specialize (Hlen Hcs).
  rewrite (take_ge stored) in Htake by done.
  exists older, stored. split_and!; [done|done|done|done| |].
  - rewrite Htake.
    destruct (exists_last Hcs) as (cs' & c & ->).
    rewrite last_snoc, map_app, reverse_app. done.
  - intros -> Hn. rewrite Htake, app_nil_r, length_take, length_reverse, length_map. lia.
Qed.

(** On a stored array every call of a run succeeds. *)
Lemma add_all_succeeds cs st history :
  getWorkoutHistory st = JArr history → Forall is_Some (add_all cs st).2.
Proof.
  intros Hh. destruct (add_all_array cs st history Hh) as [-> _].
  apply Forall_forall. intros r (c & -> & _)%list_elem_of_fmap. by eexists.
Qed.

(** *** Weights *)

(** In the parse-failure handler of [syncWeightsToCloud] the response is
    already known to be [ok]: the handler answers [true] whatever the body
    says, and the [return false] after it is never reached. *)
Lemma sync_parse_failed_ok now status text st :
  response_ok status = true →
  sync_parse_failed now status text st = (setItem WEIGHTS_SYNCED now st, true).
Proof. intros H. unfold sync_parse_failed. by rewrite H, orb_true_r. Qed.

(** C7. On a response that parses to [{status: "success", weights: {...}}]
    [loadWeightsFromCloud] returns, and stores, the union of the local and
    the cloud weights in which the cloud value wins on a common key. *)
Theorem loadWeightsFromCloud_cloud_wins status text result cloud st :
  parse text = Some result →
  get result "status" = Some (Some (JStr "success")) →
  get result "weights" = Some (Some (JObj cloud)) →
  ∃ merged,
    (loadWeightsFromCloud_resume (Response status (Some text)) st).2 = Some merged ∧
    (∀ k, merged !! k =
            match props_map cloud !! k with
            | Some v => Some v
            | None => own_props (getExerciseWeightsLocal st) !! k
            end) ∧
    dom merged = dom (own_props (getExerciseWeightsLocal st)) ∪ dom (props_map cloud) ∧
    getExerciseWeightsLocal
      (loadWeightsFromCloud_resume (Response status (Some text)) st).1 = of_map merged.
Proof.
  intros Hp Hs Hw. unfold loadWeightsFromCloud_resume. rewrite Hp, Hs, Hw. simpl.
  exists (spread2 (getExerciseWeightsLocal st) (JObj cloud)).
  split_and!; [done| | |apply getExerciseWeightsLocal_stored].
  - intros k. unfold spread2. rewrite lookup_union. simpl.
    destruct (props_map cloud !! k), (own_props (getExerciseWeightsLocal st) !! k); done.
  - unfold spread2. rewrite dom_union_L. simpl. apply (comm_L (∪)).
Qed.


(** *** Favorites *)

Lemma toggleFavorite_absent w st favorites :
  getFavorites st = JArr favorites → JStr w ∉ favorites →
  toggleFavorite w st =
    (setItem FAVORITES (stringify (JArr (favorites ++ [JStr w]))) st, true).
Proof.
  intros Hf Hw. unfold toggleFavorite. rewrite Hf.
  by rewrite (proj2 (indexOf_None favorites w) Hw).
Qed.

Lemma toggleFavorite_present w st favorites :
  getFavorites st = JArr favorites → JStr w ∈ favorites →
  ∃ before after,
    favorites = before ++ JStr w :: after ∧ (JStr w ∉ before) ∧
    toggleFavorite w st =
      (setItem FAVORITES (stringify (JArr (before ++ after))) st, false).
Proof.
  intros Hf Hw. unfold toggleFavorite. rewrite Hf.
  destruct (indexOf favorites w) as [i|] eqn:Ei.
  - destruct (indexOf_Some _ _ _ Ei) as (b & a & E & Hb & _ & Hd).
    exists b, a. by rewrite Hd.
  - by apply indexOf_None in Ei.
Qed.

(** C6. Toggling a name that is not in the stored list answers [true] and
    appends it; toggling a name that is in the list answers [false] and
    takes its first occurrence out. *)
Theorem toggleFavorite_adds_or_removes w st favorites :
  getFavorites st = JArr favorites →
  (JStr w ∉ favorites →
     (toggleFavorite w st).2 = true ∧
     getFavorites (toggleFavorite w st).1 = JArr (favorites ++ [JStr w])) ∧
  (JStr w ∈ favorites →
     (toggleFavorite w st).2 = false ∧
     ∃ before after,
       favorites = before ++ JStr w :: after ∧ (JStr w ∉ before) ∧
       getFavorites (toggleFavorite w st).1 = JArr (before ++ after)).
Proof.
  intros Hf. split; intros Hw.
  - rewrite (toggleFavorite_absent w st favorites Hf Hw). simpl.
    split; [done|apply getFavorites_stored].
  - destruct (toggleFavorite_present w st favorites Hf Hw) as (b & a & E & Hb & ->).
    simpl. split; [done|]. exists b, a. split_and!; [done|done|].
    apply getFavorites_stored.
Qed.

(** The list stored by [toggleFavorite], in both cases at once. *)
Lemma toggleFavorite_stored w st favorites :
  getFavorites st = JArr favorites →
  ∃ favorites',
    getFavorites (toggleFavorite w st).1 = JArr favorites' ∧
    ((JStr w ∉ favorites) ∧ favorites' = favorites ++ [JStr w] ∨
     ∃ before after, favorites = before ++ JStr w :: after ∧ favorites' = before ++ after).
Proof.
  intros Hf. destruct (indexOf favorites w) as [i|] eqn:Ei.
  - assert (JStr w ∈ favorites) as Hw.
    { destruct (indexOf_Some _ _ _ Ei) as (b & a & -> & _).
      apply elem_of_app. right. by left. }
    destruct (toggleFavorite_present w st favorites Hf Hw) as (b & a & -> & Hb & ->).
    exists (b ++ a). split; [apply getFavorites_stored|]. right. by exists b, a.
  - apply indexOf_None in Ei.
    rewrite (toggleFavorite_absent w st favorites Hf Ei).
    exists (favorites ++ [JStr w]). split; [apply getFavorites_stored|]. by left.
Qed.

Lemma NoDup_snoc_fresh {A} (l : list A) x : NoDup l → x ∉ l → NoDup (l ++ [x]).
Proof.
  intros Hl Hx. apply NoDup_app. split_and!; [done| |apply NoDup_singleton].
  intros y Hy Hy'. by apply list_elem_of_singleton in Hy' as ->.
Qed.

Lemma NoDup_without {A} (before after : list A) x :
  NoDup (before ++ x :: after) → NoDup (before ++ after).
Proof.
  intros (Hb & Hba & Ha)%NoDup_app. apply NoDup_cons in Ha as [_ Ha].
  apply NoDup_app. split_and!; [done| |done].
  intros y Hy Hya. apply (Hba y Hy). by right.
Qed.

(** C8. A stored list without duplicates is still without duplicates after
    [toggleFavorite]. *)
Theorem toggleFavorite_preserves_NoDup w st favorites :
  getFavorites st = JArr favorites → NoDup favorites →
  ∃ favorites',
    getFavorites (toggleFavorite w st).1 = JArr favorites' ∧ NoDup favorites'.
Proof.
  intros Hf Hnd.
  destruct (toggleFavorite_stored w st favorites Hf)
    as (l' & Hl' & [[Hw ->]|(b & a & -> & ->)]); eexists; (split; [exact Hl'|]).
  - by apply NoDup_snoc_fresh.
  - by apply NoDup_without in Hnd.
Qed.

(** Any number of toggles from a store without a favorites record keeps the
    list duplicate-free. *)
Lemma favorites_never_duplicated (ws : list string) st :
  getItem FAVORITES st = None →
  ∃ favorites,
    getFavorites (foldl (λ s w, (toggleFavorite w s).1) st ws) = JArr favorites ∧
    NoDup favorites.
Proof.
  intros Hst.
  assert (∃ l, getFavorites st = JArr l ∧ NoDup l) as H.
  { exists []. unfold getFavorites. rewrite Hst. split; [done|constructor]. }
  clear Hst. revert st H. induction ws as [|w ws IH]; intros st H; [done|].
  simpl. apply IH. destruct H as (l & Hl & Hnd).
  destruct (toggleFavorite_stored w st l Hl)
    as (l' & Hl' & [[Hw ->]|(b & a & -> & ->)]); eexists; (split; [exact Hl'|]).
  - by apply NoDup_snoc_fresh.
  - by apply NoDup_without in Hnd.
Qed.

(** *** Favorites, further *)

Lemma existsb_is_string w l : existsb (is_string w) l = true ↔ JStr w ∈ l.
Proof.
  rewrite existsb_exists. split.
  - intros (x & Hx & Hs). apply is_string_true in Hs as ->. by apply list_elem_of_In.
  - intros H. exists (JStr w). split; [by apply list_elem_of_In|by apply is_string_true].
Qed.

Lemma isFavorite_stored w l st :
  isFavorite w (setItem FAVORITES (stringify (JArr l)) st) =
    Some (existsb (is_string w) l).
Proof. unfold isFavorite. by rewrite getFavorites_stored. Qed.

(** The place of the first occurrence of an element is unique. *)
Lemma first_occurrence_unique {A} (x : A) b : ∀ b' a a',
  b ++ x :: a = b' ++ x :: a' → x ∉ b → x ∉ b' → b = b' ∧ a = a'.
Proof.
  induction b as [|y b IH]; intros [|y' b'] a a'; simpl.
  - by intros [= ->].
  - intros [= <- _] _ H. exfalso. apply H. by left.
  - intros [= -> _] H _. exfalso. apply H. by left.
  - intros [= -> E] H H'. apply not_elem_of_cons in H as [_ H].
    apply not_elem_of_cons in H' as [_ H']. destruct (IH _ _ _ E H H') as [-> ->]. done.
Qed.

(** X1.  [toggleFavorite] documents its result as the new favorite status.  It
    is, as [isFavorite] reads it afterwards, when the stored list holds no
    name twice; on a list that holds the name more than once only the first
    occurrence goes, the answer is [false] and the name is still a
    favorite. *)
Theorem toggleFavorite_answers_new_status w st favorites :
  getFavorites st = JArr favorites →
  (NoDup favorites →
     isFavorite w (toggleFavorite w st).1 = Some (toggleFavorite w st).2) ∧
  (∀ before after,
     favorites = before ++ JStr w :: after → JStr w ∉ before → JStr w ∈ after →
     (toggleFavorite w st).2 = false ∧
     isFavorite w (toggleFavorite w st).1 = Some true).
Proof.
  intros Hf. split.
  - intros Hnd. destruct (indexOf favorites w) as [i|] eqn:Ei.
    + destruct (indexOf_Some _ _ _ Ei) as (b & a & -> & Hb & _ & _).
      assert (JStr w ∈ b ++ JStr w :: a) as Hw by (apply elem_of_app; right; by left).
      destruct (toggleFavorite_present w st _ Hf Hw) as (b' & a' & E & Hb' & ->).
      destruct (first_occurrence_unique _ _ _ _ _ E Hb Hb') as [<- <-].
      simpl. rewrite isFavorite_stored. f_equal.
      apply not_true_is_false. rewrite existsb_is_string.
      apply NoDup_app in Hnd as (_ & Hba & Ha). apply NoDup_cons in Ha as [Ha _].
      intros [H|H]%elem_of_app; [|done]. apply (Hba _ H). by left.
    + apply indexOf_None in Ei. rewrite (toggleFavorite_absent w st _ Hf Ei). simpl.
      rewrite isFavorite_stored. f_equal. apply existsb_is_string.
      apply elem_of_app. right. by left.
  - intros b a -> Hb Ha.
    assert (JStr w ∈ b ++ JStr w :: a) as Hw by (apply elem_of_app; right; by left).
    destruct (toggleFavorite_present w st _ Hf Hw) as (b' & a' & E & Hb' & ->).
    destruct (first_occurrence_unique _ _ _ _ _ E Hb Hb') as [<- <-].
    simpl. split; [done|]. rewrite isFavorite_stored. f_equal.
    apply existsb_is_string, elem_of_app. by right.
Qed.

(** X2.  Toggling a name twice.  A name that was absent is added and taken out
    again, and the stored list is the one before; a name that was present
    (once) is taken out and appended, so the list holds the same names, the
    toggled one last. *)
Theorem toggleFavorite_twice w st favorites :
  getFavorites st = JArr favorites →
  let twice := toggleFavorite w (toggleFavorite w st).1 in
  (JStr w ∉ favorites → twice.2 = false ∧ getFavorites twice.1 = JArr favorites) ∧
  (∀ before after,
     favorites = before ++ JStr w :: after → JStr w ∉ before → JStr w ∉ after →
     twice.2 = true ∧ getFavorites twice.1 = JArr (before ++ after ++ [JStr w])).
Proof.
  intros Hf twice. subst twice. split.
  - intros Hw. rewrite (toggleFavorite_absent w st _ Hf Hw). cbn [fst].
    assert (JStr w ∈ favorites ++ [JStr w]) as Hin by (apply elem_of_app; right; by left).
    destruct (toggleFavorite_present w _ _ (getFavorites_stored _ st) Hin)
      as (b & a & E & Hb & ->).
    destruct (first_occurrence_unique _ _ _ _ _ E Hw Hb) as [<- <-].
    cbn [fst snd]. split; [done|]. by rewrite getFavorites_stored, app_nil_r.
  - intros b a -> Hb Ha.
    assert (JStr w ∈ b ++ JStr w :: a) as Hin by (apply elem_of_app; right; by left).
    destruct (toggleFavorite_present w st _ Hf Hin) as (b' & a' & E & Hb' & ->).
    destruct (first_occurrence_unique _ _ _ _ _ E Hb Hb') as [<- <-]. cbn [fst].
    assert (JStr w ∉ b ++ a) as Hout.
    { intros [H|H]%elem_of_app; done. }
    rewrite (toggleFavorite_absent w _ _ (getFavorites_stored _ st) Hout).
    cbn [fst snd]. split; [done|]. by rewrite getFavorites_stored, <- app_assoc.
Qed.

(** *** Clearing, and records that do not touch each other *)

Lemma getItem_removeItem k st : getItem k (removeItem k st) = None.
Proof. apply lookup_delete_eq. Qed.

Lemma getItem_removeItem_ne k k' st : k ≠ k' → getItem k' (removeItem k st) = getItem k' st.
Proof. intros H. by apply lookup_delete_ne. Qed.

Lemma getFavorites_item st st' :
  getItem FAVORITES st' = getItem FAVORITES st → getFavorites st' = getFavorites st.
Proof. unfold getFavorites. by intros ->. Qed.

Lemma getExerciseWeights_item st st' :
  getItem WEIGHTS st' = getItem WEIGHTS st → getExerciseWeights st' = getExerciseWeights st.
Proof. unfold getExerciseWeights, getExerciseWeightsLocal. by intros ->. Qed.

Lemma getExerciseWeight_item name st st' :
  getItem WEIGHTS st' = getItem WEIGHTS st →
  getExerciseWeight name st' = getExerciseWeight name st.
Proof. intros H. unfold getExerciseWeight. by rewrite (getExerciseWeights_item st st' H). Qed.

Lemma toggleFavorite_item k w st :
  k ≠ FAVORITES → getItem k (toggleFavorite w st).1 = getItem k st.
Proof.
  intros Hk. unfold toggleFavorite. destruct (getFavorites st); try done.
  destruct (indexOf _ _); simpl; by apply getItem_setItem_ne.
Qed.

Lemma addWorkoutToHistory_item k t w d ew st :
  k ≠ HISTORY → k ≠ WEIGHTS →
  getItem k (addWorkoutToHistory t w d ew st).1 = getItem k st.
Proof.
  intros Hh Hw. unfold addWorkoutToHistory. destruct (getWorkoutHistory st); try done.
  cbn [fst]. destruct (0 <? size ew).
  - rewrite updateExerciseWeights_begin_item by done. by apply getItem_setItem_ne.
  - by apply getItem_setItem_ne.
Qed.

(** X3.  After [clearWorkoutHistory] the history reads as empty, the next workout
    is the only entry, and favorites and weights are as they were. *)
Theorem clearWorkoutHistory_starts_over t w d ew st :
  getWorkoutHistory (clearWorkoutHistory st) = JArr [] ∧
  (addWorkoutToHistory t w d ew (clearWorkoutHistory st)).2 =
    Some (history_entry t w d ew) ∧
  getWorkoutHistory (addWorkoutToHistory t w d ew (clearWorkoutHistory st)).1 =
    JArr [history_entry t w d ew] ∧
  getFavorites (clearWorkoutHistory st) = getFavorites st ∧
  getExerciseWeights (clearWorkoutHistory st) = getExerciseWeights st.
Proof.
  assert (getWorkoutHistory (clearWorkoutHistory st) = JArr []) as Hc.
  { unfold getWorkoutHistory, clearWorkoutHistory. by rewrite getItem_removeItem. }
  destruct (addWorkoutToHistory_array t w d ew _ _ Hc) as [Hr Hs].
  split_and!; [done|done|done| |].
  - by apply getFavorites_item, getItem_removeItem_ne.
  - by apply getExerciseWeights_item, getItem_removeItem_ne.
Qed.

(** X4.  The three records are independent: [toggleFavorite] leaves history and
    weights alone, [addWorkoutToHistory] leaves the favorites alone, and
    neither changes the first-time flag. *)
Theorem records_do_not_interfere t w d ew name st :
  getWorkoutHistory (toggleFavorite name st).1 = getWorkoutHistory st ∧
  getExerciseWeights (toggleFavorite name st).1 = getExerciseWeights st ∧
  isFirstTimeUser (toggleFavorite name st).1 = isFirstTimeUser st ∧
  getFavorites (addWorkoutToHistory t w d ew st).1 = getFavorites st ∧
  isFirstTimeUser (addWorkoutToHistory t w d ew st).1 = isFirstTimeUser st.
Proof.
  split_and!.
  - by apply getWorkoutHistory_item, toggleFavorite_item.
  - by apply getExerciseWeights_item, toggleFavorite_item.
  - unfold isFirstTimeUser. by rewrite toggleFavorite_item.
  - by apply getFavorites_item, addWorkoutToHistory_item.
  - unfold isFirstTimeUser. by rewrite addWorkoutToHistory_item.
Qed.

(** X5.  The first-time flag: set by [markUserAsNotFirstTime], cleared by
    [resetFirstTimeStatus], whatever it was; a store that never saw the
    module is first-time; and the flag leaves the other records alone. *)
Theorem first_time_flag_round_trip st :
  isFirstTimeUser (markUserAsNotFirstTime st) = false ∧
  isFirstTimeUser (resetFirstTimeStatus st) = true ∧
  isFirstTimeUser (resetFirstTimeStatus (markUserAsNotFirstTime st)) = true ∧
  isFirstTimeUser (markUserAsNotFirstTime (resetFirstTimeStatus st)) = false ∧
  (getItem FIRST_TIME st = None → isFirstTimeUser st = true) ∧
  getWorkoutHistory (markUserAsNotFirstTime st) = getWorkoutHistory st ∧
  getFavorites (markUserAsNotFirstTime st) = getFavorites st ∧
  getExerciseWeights (markUserAsNotFirstTime st) = getExerciseWeights st.
Proof.
  unfold isFirstTimeUser, markUserAsNotFirstTime, resetFirstTimeStatus.
  rewrite !getItem_setItem, !getItem_removeItem.
  split_and!; try done.
  - by intros ->.
  - by apply getWorkoutHistory_item, getItem_setItem_ne.
  - by apply getFavorites_item, getItem_setItem_ne.
  - by apply getExerciseWeights_item, getItem_setItem_ne.
Qed.

(** *** Weights, further *)

Lemma getExerciseWeight_object name st props :
  getExerciseWeights st = JObj props →
  getExerciseWeight name st =
    Some (match props_map props !! name with
          | Some v => Data (if truthy v then v else JNull)
          | None =>
              if bool_decide (name ∈ Object_prototype) then Inherited name else Data JNull
          end).
Proof.
  intros H. unfold getExerciseWeight. rewrite H, get_member_object.
  destruct (_ !! _); [done|]. by case_bool_decide.
Qed.

(** Every way [syncWeightsToCloud] can end: it stamps the sync time and
    answers [true], or leaves the store alone and answers [false]. *)
Lemma syncWeightsToCloud_resume_cases now o st :
  syncWeightsToCloud_resume now o st = (setItem WEIGHTS_SYNCED now st, true) ∨
  syncWeightsToCloud_resume now o st = (st, false).
Proof.
  unfold syncWeightsToCloud_resume, sync_parse_failed.
  repeat case_match; auto.
Qed.

Lemma syncWeightsToCloud_resume_item k now o st :
  k ≠ WEIGHTS_SYNCED → getItem k (syncWeightsToCloud_resume now o st).1 = getItem k st.
Proof.
  intros Hk. destruct (syncWeightsToCloud_resume_cases now o st) as [-> | ->]; [|done].
  by apply getItem_setItem_ne.
Qed.

Lemma updateExerciseWeights_begin_object newWeights st props :
  getExerciseWeights st = JObj props →
  updateExerciseWeights_begin newWeights st =
    syncWeightsToCloud_begin (of_map (assign_props (props_map props) newWeights))
      (setItem WEIGHTS (stringify (of_map (assign_props (props_map props) newWeights))) st).
Proof. intros H. unfold updateExerciseWeights_begin. by rewrite H. Qed.

Lemma updateExerciseWeights_item k now o newWeights st :
  k ≠ WEIGHTS → k ≠ WEIGHTS_SYNCED →
  getItem k (updateExerciseWeights now o newWeights st).1 = getItem k st.
Proof.
  intros Hw Hs. unfold updateExerciseWeights.
  pose proof (updateExerciseWeights_begin_item k newWeights st Hw) as Hb.
  destruct (updateExerciseWeights_begin newWeights st) as [st1 [b|]]; [done|].
  by rewrite syncWeightsToCloud_resume_item.
Qed.

(** The weights record after [updateExerciseWeights], however the sync
    ends. *)
Lemma updateExerciseWeights_stored now o newWeights st props :
  getExerciseWeights st = JObj props →
  getExerciseWeights (updateExerciseWeights now o newWeights st).1 =
    of_map (assign_props (props_map props) newWeights).
Proof.
  intros H. unfold updateExerciseWeights.
  rewrite (updateExerciseWeights_begin_object _ _ _ H).
  set (m := assign_props (props_map props) newWeights).
  assert (∀ st', getItem WEIGHTS st' =
                 getItem WEIGHTS (setItem WEIGHTS (stringify (of_map m)) st) →
                 getExerciseWeights st' = of_map m) as Hkeep.
  { intros st' E. rewrite (getExerciseWeights_item _ _ E).
    apply getExerciseWeightsLocal_stored. }
  pose proof (syncWeightsToCloud_begin_item WEIGHTS (of_map m)
                (setItem WEIGHTS (stringify (of_map m)) st)) as Hb.
  destruct (syncWeightsToCloud_begin _ _) as [st1 [b|]]; simpl in *.
  - by apply Hkeep.
  - apply Hkeep. by rewrite syncWeightsToCloud_resume_item.
Qed.

(** X6.  What [updateExerciseWeights] wrote is what [getExerciseWeight] reads,
    whether the cloud sync succeeds, fails, or is not attempted: a name of
    the update has its new weight ([null] for a falsy one), any other name
    what it had before.  The one exception is the name [__proto__] on a
    record that does not own it: the update reaches the setter of
    [Object.prototype], nothing is stored, and the name reads as the
    inherited member, as before. *)
Theorem updateExerciseWeights_then_get now o newWeights name st props :
  getExerciseWeights st = JObj props →
  getExerciseWeight name (updateExerciseWeights now o newWeights st).1 =
    if bool_decide (name = "__proto__" ∧ props_map props !! name = None)
    then Some (Inherited "__proto__")
    else match newWeights !! name with
         | Some v => Some (Data (if truthy v then v else JNull))
         | None => getExerciseWeight name st
         end.
Proof.
  intros H.
  rewrite (getExerciseWeight_object name _ _ (updateExerciseWeights_stored now o newWeights st props H)).
  rewrite props_map_to_list, assign_props_lookup.
  rewrite (getExerciseWeight_object name st props H).
  case_bool_decide as Hk.
  - destruct Hk as [-> Hk]. by rewrite Hk.
  - by destruct (newWeights !! name).
Qed.

(** X7.  After [clearExerciseWeights] every exercise reads as [null], but for
    the names of the members of [Object.prototype], which read as those
    members; and the next update is all there is, a [__proto__] key of it
    left out. *)
Theorem clearExerciseWeights_forgets now o newWeights name st :
  getExerciseWeight name (clearExerciseWeights st) =
    Some (if bool_decide (name ∈ Object_prototype) then Inherited name else Data JNull) ∧
  getExerciseWeights
    (updateExerciseWeights now o newWeights (clearExerciseWeights st)).1 =
    of_map (delete "__proto__" newWeights) ∧
  getWorkoutHistory (clearExerciseWeights st) = getWorkoutHistory st ∧
  getFavorites (clearExerciseWeights st) = getFavorites st.
Proof.
  assert (getExerciseWeights (clearExerciseWeights st) = JObj []) as Hc.
  { unfold getExerciseWeights, getExerciseWeightsLocal, clearExerciseWeights.
    by rewrite getItem_removeItem. }
  split_and!.
  - by rewrite (getExerciseWeight_object _ _ _ Hc).
  - rewrite (updateExerciseWeights_stored _ _ _ _ _ Hc).
    unfold props_map. simpl. by rewrite assign_props_empty.
  - by apply getWorkoutHistory_item, getItem_removeItem_ne.
  - by apply getFavorites_item, getItem_removeItem_ne.
Qed.

(** X8.  The sync time is stamped exactly when [syncWeightsToCloud] answers
    [true]; when it answers [false] the store is as it was; and nothing but
    the stamp is ever written. *)
Theorem syncWeightsToCloud_stamps_iff_true now o st :
  let r := syncWeightsToCloud_resume now o st in
  (r.2 = true → r.1 = setItem WEIGHTS_SYNCED now st) ∧
  (r.2 = false → r.1 = st) ∧
  (∀ k, k ≠ WEIGHTS_SYNCED → getItem k r.1 = getItem k st) ∧
  sent r.1 = sent st.
Proof.
  intros r. subst r.
  destruct (syncWeightsToCloud_resume_cases now o st) as [-> | ->]; simpl;
    split_and!; try done.
  intros k Hk. by apply getItem_setItem_ne.
Qed.

(** *** The cloud *)

Lemma not_logged_sync weights st :
  logged st = false → syncWeightsToCloud_begin weights st = (st, Some false).
Proof.
  unfold logged, syncWeightsToCloud_begin. destruct (getCurrentUserEmail st) as [e|]; [|done].
  by intros ->%negb_false_iff.
Qed.

Lemma not_logged_load st :
  logged st = false → loadWeightsFromCloud_begin st = (st, Some None).
Proof.
  unfold logged, loadWeightsFromCloud_begin. destruct (getCurrentUserEmail st) as [e|]; [|done].
  by intros ->%negb_false_iff.
Qed.

Lemma logged_setItem k v st : k ≠ LOGGED_USER → logged (setItem k v st) = logged st.
Proof.
  intros H. unfold logged, getCurrentUserEmail. by rewrite getItem_setItem_ne.
Qed.

(** X9.  Without a logged-in user nothing is ever sent: the sync, the load, the
    weights update, the start-up sync and the history entry all leave the
    list of requests as it was, and the first three answer [false], [null]
    and [false]. *)
Theorem no_request_without_login now o weights newWeights t w d ew st :
  logged st = false →
  syncWeightsToCloud now o weights st = (st, false) ∧
  loadWeightsFromCloud o st = (st, None) ∧
  initializeWeightsSync o st = st ∧
  (updateExerciseWeights now o newWeights st).2 = false ∧
  sent (updateExerciseWeights now o newWeights st).1 = sent st ∧
  sent (addWorkoutToHistory t w d ew st).1 = sent st.
Proof.
  intros H.
  assert (∀ nw st', logged st' = false → sent st' = sent st →
            (updateExerciseWeights_begin nw st').2 ≠ None ∧
            ((updateExerciseWeights_begin nw st').2 = Some false) ∧
            sent (updateExerciseWeights_begin nw st').1 = sent st) as Hup.
  { intros nw st' Hl Hs. unfold updateExerciseWeights_begin.
    destruct (Object_assign _ _) as [ws|]; [|done].
    rewrite not_logged_sync; [done|]. by rewrite logged_setItem. }
  split_and!.
  - unfold syncWeightsToCloud. by rewrite not_logged_sync.
  - unfold loadWeightsFromCloud. by rewrite not_logged_load.
  - unfold initializeWeightsSync, loadWeightsFromCloud. rewrite not_logged_load by done.
    by repeat case_match.
  - unfold updateExerciseWeights. destruct (Hup newWeights st H eq_refl) as (_ & E & _).
    destruct (updateExerciseWeights_begin newWeights st) as [st1 [b|]]; simpl in *; congruence.
  - unfold updateExerciseWeights. destruct (Hup newWeights st H eq_refl) as (_ & E & Hs).
    destruct (updateExerciseWeights_begin newWeights st) as [st1 [b|]]; simpl in *; congruence.
  - unfold addWorkoutToHistory. destruct (getWorkoutHistory st); try done. cbn [fst].
    destruct (0 <? size ew); [|done].
    apply Hup; [|done]. by rewrite logged_setItem.
Qed.

(** X10.  With a user logged in, [updateExerciseWeights] on a stored weights map
    sends exactly one request, to the configured endpoint, with the action,
    the user's email and the whole merged map as JSON: parsing the
    [weights] parameter gives back what was stored locally.  The merged map
    holds each key of the update with its new value and each other stored
    key with its old one; a key [__proto__] of the update is in it only
    where the stored map already had that key. *)
Theorem updateExerciseWeights_sends_merged_map newWeights st props email :
  getCurrentUserEmail st = Some email → email ≠ "" →
  getExerciseWeights st = JObj props →
  ∃ payload merged,
    sent (updateExerciseWeights_begin newWeights st).1 =
      sent st ++ [ {| endpoint := GOOGLE_SCRIPT_URL;
                      query := [("action", "saveWeights"); ("email", email);
                                ("weights", payload)] |} ] ∧
    (updateExerciseWeights_begin newWeights st).2 = None ∧
    parse payload = Some (of_map merged) ∧
    getItem WEIGHTS (updateExerciseWeights_begin newWeights st).1 = Some payload ∧
    ∀ k, merged !! k =
           if bool_decide (k = "__proto__" ∧ props_map props !! k = None) then None
           else match newWeights !! k with
                | Some v => Some v
                | None => props_map props !! k
                end.
Proof.
  intros He Hne Hw. rewrite (updateExerciseWeights_begin_object _ _ _ Hw).
  exists (stringify (of_map (assign_props (props_map props) newWeights))),
         (assign_props (props_map props) newWeights).
  unfold syncWeightsToCloud_begin, getCurrentUserEmail in *.
  rewrite getItem_setItem_ne, He by done.
  apply String.eqb_neq in Hne. rewrite Hne. simpl.
  split_and!; [done|done|apply parse_stringify|apply getItem_setItem|].
  intros k. rewrite assign_props_lookup. case_bool_decide as Hk; [|done].
  by destruct Hk as [_ ->].
Qed.

(** Every way [loadWeightsFromCloud] can go on from its response, whatever
    the store: it returns [null] and writes nothing, or it merges the
    weights of the response over the local ones. *)
Lemma loadWeightsFromCloud_resume_cases o :
  (∀ st, loadWeightsFromCloud_resume o st = (st, None)) ∨
  (∃ weights, ∀ st,
     loadWeightsFromCloud_resume o st =
       (setItem WEIGHTS
          (stringify (of_map (spread2 (getExerciseWeightsLocal st) weights))) st,
        Some (spread2 (getExerciseWeightsLocal st) weights))).
Proof.
  unfold loadWeightsFromCloud_resume.
  repeat case_match; try (by left). right. by eexists.
Qed.

(** X11.  [loadWeightsFromCloud] writes only when it has something to return, only
    the weights record, and sends nothing on the way back; and loading the
    same response a second time changes nothing more. *)
Theorem loadWeightsFromCloud_idempotent o st :
  let r := loadWeightsFromCloud_resume o st in
  (r.2 = None → r.1 = st) ∧
  (∀ k, k ≠ WEIGHTS → getItem k r.1 = getItem k st) ∧
  sent r.1 = sent st ∧
  loadWeightsFromCloud_resume o r.1 = r.
Proof.
  intros r. subst r.
  destruct (loadWeightsFromCloud_resume_cases o) as [Hnone|[weights Hsome]].
  - rewrite !Hnone. by split_and!.
  - rewrite !Hsome. cbn [fst snd]. split_and!; [done| |done|].
    + intros k Hk. by apply getItem_setItem_ne.
    + rewrite getExerciseWeightsLocal_stored.
      assert (spread2 (of_map (spread2 (getExerciseWeightsLocal st) weights)) weights =
              spread2 (getExerciseWeightsLocal st) weights) as ->.
      { unfold spread2 at 1 3. rewrite own_props_of_map. unfold spread2.
        by rewrite (assoc_L (∪)), (idemp_L (∪)). }
      f_equal. unfold setItem. simpl. f_equal. apply insert_insert_eq.
Qed.

(** X12.  [addWorkoutToHistory] without weights (the default) touches neither the
    weights record nor the network, logged in or not; and on a history
    record that is not an array it answers [null] and changes nothing at
    all. *)
Theorem addWorkoutToHistory_edge_cases t w d st :
  (getItem WEIGHTS (addWorkoutToHistory t w d ∅ st).1 = getItem WEIGHTS st ∧
   sent (addWorkoutToHistory t w d ∅ st).1 = sent st) ∧
  (∀ ew, (∀ history, getWorkoutHistory st ≠ JArr history) →
         addWorkoutToHistory t w d ew st = (st, None)).
Proof.
  split.
  - unfold addWorkoutToHistory. destruct (getWorkoutHistory st); try done.
    cbn [fst]. rewrite map_size_empty. simpl. split; [|done].
    by apply getItem_setItem_ne.
  - intros ew H. unfold addWorkoutToHistory.
    destruct (getWorkoutHistory st) as [| | | |history|]; try done.
    by destruct (H history).
Qed.

End Persistence.

(** *** The properties at concrete stores *)

(** C1 on the code: with a user logged in, a [200] response whose body is an
    HTML error page (not JSON, and without the word success) makes
    [syncWeightsToCloud] answer [true] and stamp the sync time. *)
Theorem syncWeightsToCloud_unparseable_ok_is_success :
  let body := "<html><body>Error: quota exceeded</body></html>" in
  let weights := JObj [("Squat", JStr "100kg")] in
  parse body = None ∧
  JsString.includes body "success" = false ∧
  response_ok 200 = true ∧
  (syncWeightsToCloud example_url "2023-11-14T22:13:20.000Z"
     (Response 200 (Some body)) weights logged_in).2 = true ∧
  getItem WEIGHTS_SYNCED
    (syncWeightsToCloud example_url "2023-11-14T22:13:20.000Z"
       (Response 200 (Some body)) weights logged_in).1
  = Some "2023-11-14T22:13:20.000Z".
Proof. vm_compute. by repeat split. Qed.

Lemma addWorkoutToHistory_newest_first_capped_witness :
  let cs := nth_call <$> seq 0 101 in
  let run := add_all example_url no_array_assign cs logged_in in
  ∃ stored,
    getWorkoutHistory run.1 = JArr stored ∧
    length stored = 100 ∧ stored !! 0 = Some (entry_of (nth_call 100)).
Proof.
  intros cs run.
  destruct (addWorkoutToHistory_newest_first_capped example_url no_array_assign
              cs logged_in)
    as (older & stored & Hold & Hst & _ & _ & Hhead & Hlen).
  - discriminate.
  - apply (bool_decide_unpack _). vm_compute. exact I.
  - exists stored. split; [exact Hst|]. split.
    + apply Hlen; [|reflexivity]. vm_compute in Hold. by injection Hold as <-.
    + exact Hhead.
Defined.

Lemma toggleFavorite_adds_or_removes_witness :
  let st1 := (toggleFavorite "Leg Day" empty_world).1 in
  (toggleFavorite "Leg Day" empty_world).2 = true ∧
  getFavorites st1 = JArr [JStr "Leg Day"] ∧
  (toggleFavorite "Leg Day" st1).2 = false ∧
  getFavorites (toggleFavorite "Leg Day" st1).1 = JArr [].
Proof.
  intros st1.
  destruct (toggleFavorite_adds_or_removes "Leg Day" empty_world [] eq_refl) as [Hadd _].
  destruct (Hadd (not_elem_of_nil _)) as [Htrue Hstored].
  destruct (toggleFavorite_adds_or_removes "Leg Day" st1 [JStr "Leg Day"] Hstored)
    as [_ Hdel].
  destruct (Hdel (list_elem_of_here _ _)) as [Hfalse _].
  split; [exact Htrue|]. split; [exact Hstored|]. split; [exact Hfalse|].
  vm_compute. reflexivity.
Defined.

Lemma toggleFavorite_preserves_NoDup_witness :
  let st := setItem FAVORITES (json_text "['Leg Day','Push']") empty_world in
  ∃ favorites',
    getFavorites (toggleFavorite "Pull" st).1 = JArr favorites' ∧ NoDup favorites'.
Proof.
  intros st.
  apply (toggleFavorite_preserves_NoDup "Pull" st [JStr "Leg Day"; JStr "Push"]).
  - vm_compute. reflexivity.
  - apply NoDup_cons. split; [|apply NoDup_singleton].
    intros H. apply list_elem_of_singleton in H. discriminate H.
Defined.

Lemma loadWeightsFromCloud_cloud_wins_witness :
  let text := json_text "{'status':'success','weights':{'Squat':'100kg','Row':'60kg'}}" in
  let st := setItem WEIGHTS (json_text "{'Bench':'80kg','Row':'50kg'}") empty_world in
  ∃ merged,
    (loadWeightsFromCloud_resume (Response 200 (Some text)) st).2 = Some merged ∧
    merged !! "Bench" = Some (JStr "80kg") ∧
    merged !! "Squat" = Some (JStr "100kg") ∧
    merged !! "Row" = Some (JStr "60kg") ∧
    merged !! "Deadlift" = None.
Proof.
  intros text st.
  destruct (loadWeightsFromCloud_cloud_wins 200 text
              (JObj [("status", JStr "success");
                     ("weights", JObj [("Squat", JStr "100kg"); ("Row", JStr "60kg")])])
              [("Squat", JStr "100kg"); ("Row", JStr "60kg")] st)
    as (merged & Hm & Hk & _); [vm_compute; reflexivity..|].
  exists merged. split; [exact Hm|].
  rewrite !Hk. vm_compute. by repeat split.
Defined.

(** The example of the specification, run. *)
Example loadWeightsFromCloud_bench_squat :
  let text := json_text "{'status':'success','weights':{'Squat':'100kg'}}" in
  let st := setItem WEIGHTS (json_text "{'Bench':'80kg'}") logged_in in
  (loadWeightsFromCloud example_url (Response 200 (Some text)) st).2 =
    Some {[ "Bench" := JStr "80kg"; "Squat" := JStr "100kg" ]}.
Proof. vm_compute. reflexivity. Qed.



Lemma toggleFavorite_answers_new_status_witness :
  let st := setItem FAVORITES (json_text "['Leg Day','Push']") empty_world in
  let dup := setItem FAVORITES (json_text "['Push','Leg Day','Push']") empty_world in
  isFavorite "Push" (toggleFavorite "Push" st).1 = Some false ∧
  isFavorite "Pull" (toggleFavorite "Pull" st).1 = Some true ∧
  (toggleFavorite "Push" dup).2 = false ∧
  isFavorite "Push" (toggleFavorite "Push" dup).1 = Some true.
Proof.
  intros st dup.
  assert (NoDup [JStr "Leg Day"; JStr "Push"]) as Hnd.
  { apply NoDup_cons. split; [|apply NoDup_singleton].
    intros H. apply list_elem_of_singleton in H. discriminate H. }
  destruct (toggleFavorite_answers_new_status "Push" st [JStr "Leg Day"; JStr "Push"] eq_refl)
    as [Hpush _].
  destruct (toggleFavorite_answers_new_status "Pull" st [JStr "Leg Day"; JStr "Push"] eq_refl)
    as [Hpull _].
  destruct (toggleFavorite_answers_new_status "Push" dup
              [JStr "Push"; JStr "Leg Day"; JStr "Push"] eq_refl) as [_ Hdup].
  split; [exact (Hpush Hnd)|]. split; [exact (Hpull Hnd)|].
  apply (Hdup [] [JStr "Leg Day"; JStr "Push"] eq_refl).
  - apply not_elem_of_nil.
  - right. left.
Defined.

Lemma toggleFavorite_twice_witness :
  let st := setItem FAVORITES (json_text "['Leg Day','Push']") empty_world in
  getFavorites (toggleFavorite "Pull" (toggleFavorite "Pull" st).1).1 =
    JArr [JStr "Leg Day"; JStr "Push"] ∧
  getFavorites (toggleFavorite "Leg Day" (toggleFavorite "Leg Day" st).1).1 =
    JArr [JStr "Push"; JStr "Leg Day"].
Proof.
  intros st.
  destruct (toggleFavorite_twice "Pull" st [JStr "Leg Day"; JStr "Push"] eq_refl)
    as [Habsent _].
  destruct (toggleFavorite_twice "Leg Day" st [JStr "Leg Day"; JStr "Push"] eq_refl)
    as [_ Hpresent].
  split.
  - apply Habsent. intros H. apply elem_of_cons in H as [H|H]; [discriminate H|].
    apply list_elem_of_singleton in H. discriminate H.
  - apply (Hpresent [] [JStr "Push"] eq_refl); [apply not_elem_of_nil|].
    intros H. apply list_elem_of_singleton in H. discriminate H.
Defined.

Lemma first_time_flag_round_trip_witness :
  isFirstTimeUser empty_world = true ∧
  isFirstTimeUser (markUserAsNotFirstTime empty_world) = false.
Proof.
  destruct (first_time_flag_round_trip empty_world) as (Hmark & _ & _ & _ & Hfresh & _).
  split; [apply Hfresh; reflexivity|exact Hmark].
Defined.

Lemma updateExerciseWeights_then_get_witness :
  let st := setItem WEIGHTS (json_text "{'Bench':'80kg','Row':'50kg'}") logged_in in
  let update :=
    updateExerciseWeights example_url no_array_assign "2023-11-14T22:13:20.000Z"
      NetworkError {[ "Bench" := JStr "85kg"; "Squat" := JStr ""; "__proto__" := JStr "1kg" ]}
      st in
  update.2 = false ∧
  getExerciseWeight example_members "Bench" update.1 = Some (Data (JStr "85kg")) ∧
  getExerciseWeight example_members "Squat" update.1 = Some (Data JNull) ∧
  getExerciseWeight example_members "Row" update.1 = Some (Data (JStr "50kg")) ∧
  getExerciseWeight example_members "__proto__" update.1 = Some (Inherited "__proto__").
Proof.
  intros st update. subst update.
  split; [vm_compute; reflexivity|].
  rewrite !(updateExerciseWeights_then_get example_url no_array_assign example_members
              _ _ _ _ st [("Bench", JStr "80kg"); ("Row", JStr "50kg")] eq_refl).
  vm_compute. by repeat split.
Defined.

Lemma clearExerciseWeights_forgets_witness :
  let st := clearExerciseWeights (setItem WEIGHTS (json_text "{'Bench':'80kg'}") logged_in) in
  let newWeights : gmap string json :=
    {[ "Squat" := JStr "100kg"; "__proto__" := JStr "1kg" ]} in
  getExerciseWeight example_members "Bench" st = Some (Data JNull) ∧
  getExerciseWeight example_members "toString" st = Some (Inherited "toString") ∧
  getExerciseWeights
    (updateExerciseWeights example_url no_array_assign "2023-11-14T22:13:20.000Z"
       NetworkError newWeights st).1 = of_map {[ "Squat" := JStr "100kg" ]}.
Proof.
  intros st newWeights.
  destruct (clearExerciseWeights_forgets example_url no_array_assign example_members
              "2023-11-14T22:13:20.000Z" NetworkError newWeights "Bench"
              (setItem WEIGHTS (json_text "{'Bench':'80kg'}") logged_in))
    as (Hbench & Hupdate & _).
  destruct (clearExerciseWeights_forgets example_url no_array_assign example_members
              "2023-11-14T22:13:20.000Z" NetworkError newWeights "toString"
              (setItem WEIGHTS (json_text "{'Bench':'80kg'}") logged_in))
    as (Hmember & _).
  split; [exact Hbench|]. split; [exact Hmember|]. exact Hupdate.
Defined.

Lemma syncWeightsToCloud_stamps_iff_true_witness :
  let ok := Response 200 (Some (json_text "{'status':'success'}")) in
  let refused := Response 200 (Some (json_text "{'status':'error','message':'no sheet'}")) in
  (syncWeightsToCloud_resume "2023-11-14T22:13:20.000Z" ok logged_in).1 =
    setItem WEIGHTS_SYNCED "2023-11-14T22:13:20.000Z" logged_in ∧
  (syncWeightsToCloud_resume "2023-11-14T22:13:20.000Z" refused logged_in).1 = logged_in.
Proof.
  intros ok refused.
  destruct (syncWeightsToCloud_stamps_iff_true "2023-11-14T22:13:20.000Z" ok logged_in)
    as (Htrue & _).
  destruct (syncWeightsToCloud_stamps_iff_true "2023-11-14T22:13:20.000Z" refused logged_in)
    as (_ & Hfalse & _).
  split; [apply Htrue|apply Hfalse]; vm_compute; reflexivity.
Defined.

Lemma no_request_without_login_witness :
  let st := setItem WEIGHTS (json_text "{'Bench':'80kg'}") empty_world in
  let run := addWorkoutToHistory example_url no_array_assign
               (call_clock (nth_call 0)) "Leg Day" 1800 {[ "Squat" := JStr "100kg" ]} st in
  sent run.1 = [] ∧
  getExerciseWeight example_members "Squat" run.1 = Some (Data (JStr "100kg")).
Proof.
  intros st run. subst run.
  destruct (no_request_without_login example_url no_array_assign
              "2023-11-14T22:13:20.000Z" NetworkError JNull ∅
              (call_clock (nth_call 0)) "Leg Day" 1800%Z {[ "Squat" := JStr "100kg" ]} st)
    as (_ & _ & _ & _ & _ & Hsent); [reflexivity|].
  split; [exact Hsent|]. vm_compute. reflexivity.
Defined.

Lemma updateExerciseWeights_sends_merged_map_witness :
  let st := setItem WEIGHTS (json_text "{'Bench':'80kg'}") logged_in in
  let newWeights : gmap string json :=
    {[ "Squat" := JStr "100kg"; "__proto__" := JStr "1kg" ]} in
  ∃ payload merged,
    sent (updateExerciseWeights_begin example_url no_array_assign newWeights st).1 =
      [ {| endpoint := example_url;
           query := [("action", "saveWeights"); ("email", "user@example.com");
                     ("weights", payload)] |} ] ∧
    parse payload = Some (of_map merged) ∧
    merged !! "Bench" = Some (JStr "80kg") ∧
    merged !! "Squat" = Some (JStr "100kg") ∧
    merged !! "__proto__" = None.
Proof.
  intros st newWeights.
  destruct (updateExerciseWeights_sends_merged_map example_url no_array_assign
              newWeights st [("Bench", JStr "80kg")] "user@example.com")
    as (payload & merged & Hsent & _ & Hparse & _ & Hmerged);
    [reflexivity|discriminate|reflexivity|].
  exists payload, merged. split; [exact Hsent|]. split; [exact Hparse|].
  rewrite !Hmerged. vm_compute. by repeat split.
Defined.

Lemma loadWeightsFromCloud_idempotent_witness :
  let o := Response 200 (Some (json_text "{'status':'success','weights':{'Squat':'100kg'}}")) in
  let bad := Response 500 (Some "<html>Internal error</html>") in
  let st := setItem WEIGHTS (json_text "{'Bench':'80kg'}") logged_in in
  (loadWeightsFromCloud_resume bad st).1 = st ∧
  loadWeightsFromCloud_resume o (loadWeightsFromCloud_resume o st).1 =
    loadWeightsFromCloud_resume o st.
Proof.
  intros o bad st.
  destruct (loadWeightsFromCloud_idempotent bad st) as (Hnull & _).
  destruct (loadWeightsFromCloud_idempotent o st) as (_ & _ & _ & Hagain).
  split; [apply Hnull; vm_compute; reflexivity|exact Hagain].
Defined.

Lemma addWorkoutToHistory_edge_cases_witness :
  let st := setItem HISTORY (json_text "{'oops':1}") logged_in in
  addWorkoutToHistory example_url no_array_assign (call_clock (nth_call 0))
    "Leg Day" 1800 {[ "Squat" := JStr "100kg" ]} st = (st, None).
Proof.
  intros st.
  destruct (addWorkoutToHistory_edge_cases example_url no_array_assign
              (call_clock (nth_call 0)) "Leg Day" 1800%Z st) as [_ Hfail].
  apply Hfail. intros history H. vm_compute in H. discriminate H.
Defined.

End Workout.

(** ** The instant-navigation overlay *)

Module InstantNav.
Import JsString Browser.

(** The element [#nav-transition-overlay]: [None] when the document holds no
    such element, else whether it carries the class [active]. *)
Definition overlay : Type := option bool.

(** [window.showNavOverlay] *)
Definition showNavOverlay (o : overlay) : overlay :=
  match o with
  | Some _ => Some true
  | None => None
  end.

(** [window.hideNavOverlay] *)
Definition hideNavOverlay (o : overlay) : overlay :=
  match o with
  | Some _ => Some false
  | None => None
  end.

(** The test after which the click listener returns without showing the
    overlay; [!href] holds for a missing and for an empty attribute. *)
Definition click_skipped (link : anchor) : bool :=
  match href link with
  | None => true
  | Some h =>
      String.eqb h "" ||
      startsWith h "http" ||
      startsWith h "#" ||
      startsWith h "javascript:" ||
      String.eqb (target link) "_blank" ||
      download link
  end.

(** What a listener leaves behind: the overlay, and whether it called
    [preventDefault]. *)
Record handled := { overlay_after : overlay; default_prevented : bool }.

(** The capturing click listener; [link] is [e.target.closest('a')]. *)
Definition on_click (link : option anchor) (o : overlay) : handled :=
  match link with
  | None => {| overlay_after := o; default_prevented := false |}
  | Some link =>
      if click_skipped link
      then {| overlay_after := o; default_prevented := false |}
      else {| overlay_after := showNavOverlay o; default_prevented := false |}
  end.

(** The links of C9, in the words of the claim: an href attribute that
    does not start with [http], [#] or [javascript:], a target other than
    [_blank], no download attribute. *)
Definition claimed_internal (link : anchor) : bool :=
  match href link with
  | None => false
  | Some h =>
      negb (startsWith h "http") && negb (startsWith h "#") &&
      negb (startsWith h "javascript:") &&
      negb (String.eqb (target link) "_blank") && negb (download link)
  end.

(** C9 as the claim states it. *)
Definition click_claim_as_stated : Prop :=
  ∀ link a,
    (overlay_after (on_click (Some link) (Some a)) = Some true ∧ a = false
       → claimed_internal link = true) ∧
    (claimed_internal link = true →
       overlay_after (on_click (Some link) (Some a)) = Some true ∧
       default_prevented (on_click (Some link) (Some a)) = false) ∧
    (claimed_internal link = false →
       overlay_after (on_click (Some link) (Some a)) = Some a).

(** The links the listener does mask: as claimed, and the href not empty. *)
Definition internal_link (link : anchor) : bool :=
  match href link with
  | None => false
  | Some h => negb (String.eqb h "") && claimed_internal link
  end.

(** An anchor with an empty href attribute. *)
Definition empty_href_link : anchor :=
  {| href := Some ""; target := ""; download := false |}.

(** *** The script from its first line *)

(** What the script keeps and reads between events: whether the document
    has a body, the [div] it created (in the document or not, with the class
    [active] or not), whether [insertOverlay] waits for [DOMContentLoaded],
    whether the script ran to its end ([wrapped]: the two [location]
    functions are replaced and the three hiding listeners registered), the
    delays of the [setTimeout] calls still pending (oldest first), and the
    calls that reached the original [location] functions (oldest first).
    The created [div] is taken to be the only element with the id
    [nav-transition-overlay]. *)
Inductive location_method := LocationAssign | LocationReplace.

Record session := {
  has_body : bool;
  attached : bool;
  active : bool;
  insert_on_ready : bool;
  wrapped : bool;
  timers : list nat;
  forwarded : list (location_method * Json.json)
}.

(** [document.getElementById('nav-transition-overlay')] *)
Definition layer (s : session) : overlay :=
  if attached s then Some (active s) else None.

(** The session once a call on the overlay has returned [o]. *)
Definition with_layer (o : overlay) (s : session) : session :=
  match o with
  | Some a =>
      {| has_body := has_body s; attached := attached s; active := a;
         insert_on_ready := insert_on_ready s; wrapped := wrapped s;
         timers := timers s; forwarded := forwarded s |}
  | None => s
  end.

Definition with_timers (t : list nat) (s : session) : session :=
  {| has_body := has_body s; attached := attached s; active := active s;
     insert_on_ready := insert_on_ready s; wrapped := wrapped s;
     timers := t; forwarded := forwarded s |}.

Definition insertOverlay (s : session) : session :=
  if has_body s
  then {| has_body := true; attached := true; active := active s;
          insert_on_ready := insert_on_ready s; wrapped := wrapped s;
          timers := timers s; forwarded := forwarded s |}
  else s.

(** The script, run.  The [div] is created without the class [active], and
    put into the document at once unless [document.readyState] is
    [loading]; the click and the submit listener are registered.  Then the
    script assigns to [window.location.assign], which is a read-only
    property of the [Location] object: the script is strict, so the
    assignment throws a [TypeError] and the script ends there.  Neither
    [location] function is replaced, and the listeners for [pageshow],
    [DOMContentLoaded] and [load] that hide the overlay are not
    registered. *)
Definition start (loading body : bool) : session :=
  let s := {| has_body := body; attached := false; active := false;
              insert_on_ready := loading; wrapped := false;
              timers := []; forwarded := [] |} in
  if loading then s else insertOverlay s.

(** The capturing submit listener; [action] is [form.action] where it is a
    string, [None] where the target has none. *)
Definition on_submit (action : option string) (o : overlay) : overlay :=
  match action with
  | Some a =>
      if negb (String.eqb a "") && negb (startsWith a "javascript:")
      then showNavOverlay o
      else o
  | None => o
  end.

(** The original [location.assign] or [location.replace] is called. *)
Definition forward (m : location_method) (url : Json.json) (s : session) : session :=
  {| has_body := has_body s; attached := attached s; active := active s;
     insert_on_ready := insert_on_ready s; wrapped := wrapped s;
     timers := timers s; forwarded := forwarded s ++ [(m, url)] |}.

(** The function the script means to put in the place of [location.assign]
    and of [location.replace]; [None] is the [TypeError] of [url.startsWith]
    on a value that is not a string and not falsy, raised before the
    original function is reached. *)
Definition location_wrapper (m : location_method) (url : Json.json) (s : session)
  : option session :=
  if JsValue.truthy url then
    match url with
    | Json.JStr u =>
        Some (forward m url (if startsWith u "#" then s
                             else with_layer (showNavOverlay (layer s)) s))
    | _ => None
    end
  else Some (forward m url s).

(** What reaches the script: the parser has made the body, one of its
    listeners is called, [location.assign] or [location.replace] is called,
    one of [pageshow], [DOMContentLoaded] and [load] is fired, or the timer
    at index [i] of the pending ones runs out. *)
Inductive event :=
| BodyParsed
| Clicked (link : option anchor)
| Submitted (action : option string)
| LocationCall (m : location_method) (url : Json.json)
| PageShow
| DomContentLoaded
| Load
| Timeout (i : nat).

(** The listeners of the second half of the script set their timers only
    where they were registered, and a [location] call goes through the
    wrapper only where it was installed. *)
Definition step (s : session) (e : event) : session :=
  match e with
  | BodyParsed =>
      {| has_body := true; attached := attached s; active := active s;
         insert_on_ready := insert_on_ready s; wrapped := wrapped s;
         timers := timers s; forwarded := forwarded s |}
  | Clicked link => with_layer (overlay_after (on_click link (layer s))) s
  | Submitted action => with_layer (on_submit action (layer s)) s
  | LocationCall m url =>
      if wrapped s then default s (location_wrapper m url s) else forward m url s
  | PageShow => if wrapped s then with_timers (timers s ++ [100]) s else s
  | DomContentLoaded =>
      let s := if insert_on_ready s then insertOverlay s else s in
      if wrapped s then with_timers (timers s ++ [100]) s else s
  | Load => if wrapped s then with_timers (timers s ++ [200]) s else s
  | Timeout i =>
      match timers s !! i with
      | Some _ => with_timers (delete i (timers s)) (with_layer (hideNavOverlay (layer s)) s)
      | None => s
      end
  end.

Definition run (es : list event) (s : session) : session := fold_left step es s.

(** The events at which the script calls [showNavOverlay], or would with
    its wrappers in place. *)
Definition masks (e : event) : bool :=
  match e with
  | Clicked (Some link) => internal_link link
  | Submitted (Some a) => negb (String.eqb a "") && negb (startsWith a "javascript:")
  | LocationCall _ (Json.JStr u) => negb (String.eqb u "") && negb (startsWith u "#")
  | _ => false
  end.

(** The events at which it sets a timer, or would with its listeners
    registered. *)
Definition schedules (e : event) : bool :=
  match e with
  | PageShow | DomContentLoaded | Load => true
  | _ => false
  end.

Lemma click_skipped_internal link : click_skipped link = negb (internal_link link).
Proof.
  unfold click_skipped, internal_link, claimed_internal.
  destruct (href link) as [h|]; [|done].
  destruct (String.eqb h ""), (startsWith h "http"), (startsWith h "#"),
    (startsWith h "javascript:"), (String.eqb (target link) "_blank"), (download link);
    done.
Qed.

(** C9 fails as stated: an anchor with [href=""] meets the condition of
    the claim and the listener leaves the overlay alone. *)
Lemma click_claim_fails_on_empty_href : ¬ click_claim_as_stated.
Proof.
  intros H. destruct (H empty_href_link false) as (_ & Hshow & _).
  destruct (Hshow eq_refl) as [Habs _]. vm_compute in Habs. discriminate Habs.
Qed.

(** C9, amended.  The listener shows the overlay exactly for an anchor with
    a non-empty href that does not start with [http], [#] or [javascript:],
    whose target is not [_blank] and that has no download attribute; it
    leaves the overlay as it is for any other anchor, and never prevents
    the default action.  Showing marks the overlay active when the element
    is in the document. *)
Theorem click_masks_internal_links link o :
  (internal_link link = true ↔
     ∃ h, href link = Some h ∧ h ≠ "" ∧
          startsWith h "http" = false ∧ startsWith h "#" = false ∧
          startsWith h "javascript:" = false ∧
          target link ≠ "_blank" ∧ download link = false) ∧
  (internal_link link = true →
     overlay_after (on_click (Some link) o) = showNavOverlay o ∧
     (∀ a, o = Some a → overlay_after (on_click (Some link) o) = Some true)) ∧
  (internal_link link = false → overlay_after (on_click (Some link) o) = o) ∧
  default_prevented (on_click (Some link) o) = false.
Proof.
  split_and!.
  - unfold internal_link, claimed_internal. destruct (href link) as [h|].
    + rewrite !andb_true_iff, !negb_true_iff, !String.eqb_neq. split.
      * intros (? & (((? & ?) & ?) & ?) & ?). exists h. by split_and!.
      * intros (h' & [= <-] & ? & ? & ? & ? & ? & ?). by split_and!.
    + split; [done|]. by intros (h & [=] & _).
  - intros Hi. unfold on_click. rewrite click_skipped_internal, Hi. simpl.
    split; [done|]. by intros a ->.
  - intros Hi. unfold on_click. by rewrite click_skipped_internal, Hi.
  - unfold on_click. by destruct (click_skipped link).
Qed.

(** *** The overlay over a run of events *)

Lemma active_with_layer o s : active (with_layer o s) = default (active s) o.
Proof. by destruct o. Qed.

Lemma layer_with_layer_show s :
  layer s = Some true → with_layer (showNavOverlay (layer s)) s = s.
Proof.
  unfold layer. destruct s as [hb [] [] r w t f]; simpl; by intros [=].
Qed.

Lemma on_click_unmasked link o :
  masks (Clicked link) = false → overlay_after (on_click link o) = o.
Proof.
  destruct link as [l|]; simpl; [|done]. intros H.
  by rewrite click_skipped_internal, H.
Qed.

Lemma on_click_cases link o :
  overlay_after (on_click link o) = o ∨ overlay_after (on_click link o) = showNavOverlay o.
Proof.
  unfold on_click. destruct link as [l|]; [|by left].
  destruct (click_skipped l); [by left|by right].
Qed.

Lemma step_unmasked s e :
  masks e = false → active s = false → active (step s e) = false.
Proof.
  intros Hm Ha. destruct e as [|link|action|m url| | | |i]; cbn [step].
  - done.
  - rewrite (on_click_unmasked _ _ Hm), active_with_layer.
    unfold layer. by destruct (attached s).
  - rewrite active_with_layer. unfold on_submit, layer.
    destruct action as [a|]; unfold masks in Hm; [rewrite Hm|]; by destruct (attached s).
  - destruct (wrapped s); [|done].
    unfold location_wrapper, masks in *.
    destruct url as [|[]|n|u|items|props]; cbn [JsValue.truthy default]; try done.
    + by destruct (negb (n =? 0)%Z).
    + destruct (String.eqb u ""); cbn [negb andb default] in *; [done|].
      apply negb_false_iff in Hm. by rewrite Hm.
  - by destruct (wrapped s).
  - unfold insertOverlay.
    by destruct (insert_on_ready s), (has_body s), (wrapped s).
  - by destruct (wrapped s).
  - destruct (timers s !! i); [|done]. cbn [with_timers active]. rewrite active_with_layer.
    unfold layer. by destruct (attached s).
Qed.

Lemma start_inactive loading body : active (start loading body) = false.
Proof. by destruct loading, body. Qed.

Lemma run_unmasked es : ∀ s,
  active s = false → active (run es s) = true → Exists (λ e, masks e = true) es.
Proof.
  induction es as [|e es IH]; intros s Ha; simpl.
  - congruence.
  - intros Hr. destruct (masks e) eqn:Hm.
    + by apply Exists_cons_hd.
    + apply Exists_cons_tl, (IH (step s e)); [by apply step_unmasked|done].
Qed.

(** X22.  The overlay is never shown unprompted.  The [div] is created without
    the class [active]; whatever then reaches the script, in whatever
    order, the overlay is active only if among the events there was a click
    on an internal link, the submit of a form whose action is not empty and
    not a [javascript:] one, or a call of [location.assign] or
    [location.replace] with a non-empty string that does not start with
    [#]. *)
Theorem overlay_never_shown_unprompted loading body es :
  layer (run es (start loading body)) = Some true →
  Exists (λ e, masks e = true) es.
Proof.
  intros H. apply (run_unmasked es (start loading body)); [apply start_inactive|].
  unfold layer in H. destruct (attached _); by inversion H.
Qed.

Lemma step_stays_shown s e :
  schedules e = false → timers s = [] → layer s = Some true →
  timers (step s e) = [] ∧ layer (step s e) = Some true.
Proof.
  intros Hs Ht Hl.
  assert (attached s = true ∧ active s = true) as [Hat Hac].
  { unfold layer in Hl. destruct (attached s); by inversion Hl. }
  destruct s as [hb at' ac r w tm f]. cbn [attached active timers] in *. subst.
  destruct e as [|link|action|m url| | | |i]; try discriminate Hs; cbn [step].
  - by split.
  - by destruct (on_click_cases link (layer (Build_session hb true true r w [] f)))
      as [-> | ->].
  - unfold on_submit. destruct action as [a|]; [|by split].
    by destruct (_ && _).
  - cbn [wrapped]. destruct w; [|by split].
    unfold location_wrapper.
    destruct (JsValue.truthy url); [|by split].
    destruct url as [| | |u| |]; try by split. by destruct (startsWith u "#").
  - by split.
Qed.

(** X23.  Nothing but a timer takes the overlay away, and timers are set only on
    [pageshow], [DOMContentLoaded] and [load].  So on a page where the
    overlay is active and no timer is pending, it stays active through any
    clicks, submits, [location] calls and stale timeouts, until one of
    those three events arrives. *)
Theorem overlay_stays_until_page_event es s :
  timers s = [] → layer s = Some true →
  Forall (λ e, schedules e = false) es →
  timers (run es s) = [] ∧ layer (run es s) = Some true.
Proof.
  revert s. induction es as [|e es IH]; intros s Ht Hl Hes; simpl; [done|].
  apply List.Forall_cons_iff in Hes as [He Hes].
  destruct (step_stays_shown s e He Ht Hl) as [Ht' Hl']. by apply IH.
Qed.

Lemma step_unwrapped s e :
  wrapped s = false → timers s = [] →
  wrapped (step s e) = false ∧ timers (step s e) = [] ∧
  (layer s = Some true → layer (step s e) = Some true).
Proof.
  intros Hw Ht.
  destruct s as [hb at' ac r w tm f]. cbn [wrapped timers] in *. subst.
  destruct e as [|link|action|m url| | | |i]; cbn [step wrapped timers].
  - by split_and!.
  - destruct (on_click_cases link (layer (Build_session hb at' ac r false [] f)))
      as [-> | ->]; unfold layer; cbn [attached active];
      destruct at', ac; by split_and!.
  - unfold on_submit. destruct action as [a|]; [destruct (_ && _)|];
      unfold layer; cbn [attached active]; destruct at', ac; by split_and!.
  - by split_and!.
  - by split_and!.
  - unfold insertOverlay, layer. cbn [insert_on_ready has_body].
    destruct r, hb, at'; by split_and!.
  - by split_and!.
  - by split_and!.
Qed.

Lemma run_unwrapped es : ∀ s,
  wrapped s = false → timers s = [] →
  wrapped (run es s) = false ∧ timers (run es s) = [] ∧
  (layer s = Some true → layer (run es s) = Some true).
Proof.
  induction es as [|e es IH]; intros s Hw Ht; simpl; [done|].
  destruct (step_unwrapped s e Hw Ht) as (Hw' & Ht' & Hl').
  destruct (IH (step s e) Hw' Ht') as (? & ? & Hl). split_and!; auto.
Qed.

Lemma start_unwrapped loading body :
  wrapped (start loading body) = false ∧ timers (start loading body) = [].
Proof. by destruct loading, body. Qed.

(** X24.  The script never hides its overlay.  Its assignment to
    [location.assign] throws before the listeners for [pageshow],
    [DOMContentLoaded] and [load] are registered and before either
    [location] function is replaced.  So from the start of the script,
    whatever reaches it: no timer is ever set; an overlay that is active
    stays active through everything that follows, the three page events and
    any timeout among them; and a call of [location.assign] or
    [location.replace] reaches the original function with the overlay left
    as it was. *)
Theorem overlay_never_hidden loading body es :
  let s := run es (start loading body) in
  timers s = [] ∧
  (∀ es', layer s = Some true → layer (run es' s) = Some true) ∧
  (∀ m url, layer (step s (LocationCall m url)) = layer s ∧
            forwarded (step s (LocationCall m url)) = forwarded s ++ [(m, url)]).
Proof.
  intros s.
  destruct (start_unwrapped loading body) as [Hw0 Ht0].
  destruct (run_unwrapped es (start loading body) Hw0 Ht0) as (Hw & Ht & _).
  fold s in Hw, Ht. split; [done|]. split.
  - intros es'. by destruct (run_unwrapped es' s Hw Ht) as (_ & _ & Hl).
  - intros m url. cbn [step]. by rewrite Hw.
Qed.

Lemma click_masks_internal_links_witness :
  let link := {| href := Some "pages/dashboard.html"; target := ""; download := false |} in
  overlay_after (on_click (Some link) (Some false)) = Some true ∧
  overlay_after (on_click (Some empty_href_link) (Some false)) = Some false.
Proof.
  intros link.
  destruct (click_masks_internal_links link (Some false)) as (_ & Hshow & _).
  destruct (click_masks_internal_links empty_href_link (Some false)) as (_ & _ & Hskip & _).
  split.
  - destruct (Hshow eq_refl) as [_ Hactive]. by apply (Hactive false).
  - apply Hskip. reflexivity.
Defined.

Lemma overlay_never_shown_unprompted_witness :
  Exists (λ e, masks e = true)
    [ Load; Clicked (Some {| href := Some "pages/dashboard.html"; target := "";
                             download := false |}) ].
Proof.
  apply (overlay_never_shown_unprompted false true). reflexivity.
Defined.

Lemma overlay_stays_until_page_event_witness :
  let s := run [ Clicked (Some {| href := Some "pages/dashboard.html"; target := "";
                                  download := false |}) ] (start false true) in
  layer (run [ Clicked None; Submitted None;
               LocationCall LocationAssign (Json.JStr "#top"); Timeout 0 ] s) = Some true.
Proof.
  intros s.
  apply (overlay_stays_until_page_event
           [ Clicked None; Submitted None;
             LocationCall LocationAssign (Json.JStr "#top"); Timeout 0 ] s);
    [reflexivity|reflexivity|].
  repeat (apply List.Forall_cons; [reflexivity|]). apply List.Forall_nil.
Defined.

Lemma overlay_never_hidden_witness :
  let link := {| href := Some "pages/dashboard.html"; target := ""; download := false |} in
  let s := run [ DomContentLoaded; Clicked (Some link) ] (start true true) in
  layer s = Some true ∧
  layer (run [ Load; PageShow; Timeout 0 ] s) = Some true.
Proof.
  intros link s.
  destruct (overlay_never_hidden true true [ DomContentLoaded; Clicked (Some link) ])
    as (_ & Hstays & _).
  split; [reflexivity|]. apply Hstays. reflexivity.
Defined.

End InstantNav.

(** ** AJAX navigation ([js/ajax-navigation.js]) *)

Module AjaxNav.
Import JsString Browser.

Definition AJAX_PAGES : list string :=
  [ "/index.html"; "/pages/dashboard.html"; "/pages/workout.html";
    "/pages/nutrition.html"; "/pages/profile.html"; "/pages/workout-completion.html";
    "index.html"; "pages/dashboard.html"; "pages/workout.html";
    "pages/nutrition.html"; "pages/profile.html"; "pages/workout-completion.html";
    "dashboard.html"; "workout.html"; "nutrition.html"; "profile.html";
    "workout-completion.html"; "../index.html";
    "/"; "./"; "../" ].

(** A script element of a parsed page. *)
Record script := { src : option string; innerHTML : string }.

(** What [DOMParser] hands back, as far as [parsePageContent] reads it;
    the scripts are in document order. *)
Record document := {
  doc_title : string;
  doc_body : string;
  doc_className : string;
  doc_scripts : list script
}.

Record page_content := {
  title : string;
  body : string;
  bodyClasses : string;
  scripts : list string;
  externalScripts : list string
}.

(** An entry made with [history.pushState] or [history.replaceState]. *)
Record history_entry := { ajaxNav : bool; entry_title : string; entry_url : string }.

(** What the script does to the world outside the document. *)
Inductive effect :=
| Fetch (url : string)
| SetLocation (href : string)
| Reload
| RunScript (content : string)
| Dispatch (event : string)
| UpdateDvh
| ScrollToTop.

(** A script element made by [executeScripts]: its number in the order of
    creation, and its text. *)
Record script_element := { element : nat; textContent : string }.

(** The state the script reads and writes: its lock, the document, the
    session history (newest entry first) and the effects so far (oldest
    first).  Of the body the state holds the markup last assigned to
    [innerHTML], the script elements appended to the body since and still
    in it (oldest first), the elements whose removal timer is pending
    (oldest first), and how many script elements were made so far. *)
Record browser := {
  isNavigating : bool;
  document_title : string;
  body_innerHTML : string;
  body_className : string;
  body_scripts : list script_element;
  removals : list nat;
  created : nat;
  entries : list history_entry;
  effects : list effect
}.

Definition with_lock (l : bool) (b : browser) : browser :=
  {| isNavigating := l; document_title := document_title b;
     body_innerHTML := body_innerHTML b; body_className := body_className b;
     body_scripts := body_scripts b; removals := removals b; created := created b;
     entries := entries b; effects := effects b |}.

Definition emit (e : list effect) (b : browser) : browser :=
  {| isNavigating := isNavigating b; document_title := document_title b;
     body_innerHTML := body_innerHTML b; body_className := body_className b;
     body_scripts := body_scripts b; removals := removals b; created := created b;
     entries := entries b; effects := effects b ++ e |}.

(** The assignment to [document.body.innerHTML] replaces every child of the
    body, appended script elements among them. *)
Definition swap_content (c : page_content) (b : browser) : browser :=
  {| isNavigating := isNavigating b; document_title := title c;
     body_innerHTML := body c; body_className := bodyClasses c;
     body_scripts := []; removals := removals b; created := created b;
     entries := entries b; effects := effects b |}.

Definition push_entry (e : history_entry) (b : browser) : browser :=
  {| isNavigating := isNavigating b; document_title := document_title b;
     body_innerHTML := body_innerHTML b; body_className := body_className b;
     body_scripts := body_scripts b; removals := removals b; created := created b;
     entries := e :: entries b; effects := effects b |}.

(** One round of the loop of [executeScripts]: a script element is made
    and appended to the body, which runs its text, and a timer is set to
    remove it. *)
Definition executeScript (content : string) (b : browser) : browser :=
  {| isNavigating := isNavigating b; document_title := document_title b;
     body_innerHTML := body_innerHTML b; body_className := body_className b;
     body_scripts := body_scripts b ++ [ {| element := created b; textContent := content |} ];
     removals := removals b ++ [created b];
     created := S (created b);
     entries := entries b; effects := effects b ++ [RunScript content] |}.

(** The timer at index [i] of the pending ones runs out: [script.remove()],
    which takes the element out of the body if it is still there. *)
Definition remove_script (i : nat) (b : browser) : browser :=
  match removals b !! i with
  | Some n =>
      {| isNavigating := isNavigating b; document_title := document_title b;
         body_innerHTML := body_innerHTML b; body_className := body_className b;
         body_scripts := filter (λ s, element s ≠ n) (body_scripts b);
         removals := delete i (removals b);
         created := created b;
         entries := entries b; effects := effects b |}
  | None => b
  end.

(** The first [n] pending timers run out, the oldest first. *)
Fixpoint remove_scripts (n : nat) (b : browser) : browser :=
  match n with
  | 0 => b
  | S n => remove_scripts n (remove_script 0 b)
  end.

(** A [navigateAjax] run suspended at one of its two [await]s. *)
Inductive task :=
| AwaitFetch (href absoluteUrl : string) (pushState : bool)
| AwaitText (href absoluteUrl : string) (pushState : bool).

(** How an awaited promise settles: it rejects, [fetch] answers with a
    status, or [response.text()] delivers the body. *)
Inductive settled :=
| Rejected
| Responded (status : Z)
| BodyText (html : string).

(** A click, as far as [handleClick] looks at it. *)
Record click := {
  link : option anchor;
  ctrlKey : bool; shiftKey : bool; metaKey : bool; altKey : bool
}.

(** A page to run the script on. *)

Definition example_origin : string := "https://viltrum.example".
Definition example_host : string := "viltrum.example".

Definition example_resolve (href : string) : string :=
  if startsWith href "http" then href
  else if startsWith href "/" then (example_origin ++ href)%string
  else (example_origin ++ "/" ++ href)%string.

Definition example_parse (html : string) : document :=
  {| doc_title := "Viltrum";
     doc_body := html;
     doc_className := "app";
     doc_scripts := [ {| src := None; innerHTML := "initPage()" |};
                      {| src := Some "js/ajax-navigation.js"; innerHTML := "" |};
                      {| src := Some "js/viewport.js"; innerHTML := "" |} ] |}.

Definition example_browser : browser :=
  {| isNavigating := false; document_title := "Home"; body_innerHTML := "<main></main>";
     body_className := ""; body_scripts := []; removals := []; created := 0;
     entries := []; effects := [] |}.

Section Page.

(** [window.location.origin] and [window.location.host]. *)
Variables origin host : string.

(** How the document resolves an href ([a.href] after [a.href = href]). *)
Variable resolve : string → string.

(** [DOMParser.parseFromString(html, 'text/html')]. *)
Variable parseFromString : string → document.

(** Whether [history.pushState] accepts the URL (it throws on a URL of
    another origin). *)
Variable same_origin : string → bool.

(** [updateDvhProperty] of viewport.js: absent, or whether a call of it
    returns ([true]) or throws ([false]). *)
Variable updateDvhProperty : option bool.

(** *** Eligibility *)

Definition shouldUseAjax (href : option string) : bool :=
  match href with
  | None => false
  | Some href =>
      if String.eqb href "" then false
      else if startsWith href "http" && negb (includes href host) then false
      else if startsWith href "#" || startsWith href "javascript:" ||
              startsWith href "mailto:" || startsWith href "tel:" then false
      else if includes href "?" &&
              (includes href "access_token" || includes href "refresh_token" ||
               includes href "type=" || includes href "token_hash" ||
               includes href "code=") then false
      else
        let normalizedHref := replace href origin "" in
        existsb (λ page, endsWith normalizedHref page || String.eqb normalizedHref page)
          AJAX_PAGES
  end.

(** *** The eligibility rule in the words of the specification *)

Definition auth_markers : list string :=
  ["access_token"; "refresh_token"; "type="; "token_hash"; "code="].

Definition has_marker (s : string) : bool := existsb (includes s) auth_markers.

(** The query string of an href: what follows its first [?]. *)
Definition query_string (href : string) : option string := after "?"%char href.

(** The href contains a query string that contains an auth marker. *)
Definition auth_query (href : string) : bool :=
  match query_string href with
  | Some q => has_marker q
  | None => false
  end.

(** The href without the origin, when it starts with it. *)
Definition strip_origin_prefix (href : string) : string :=
  if startsWith href origin then slice (String.length origin) href else href.

(** The text equals or ends with an entry of the allow-list. *)
Definition allow_listed (s : string) : bool :=
  existsb (λ page, endsWith s page || String.eqb s page) AJAX_PAGES.

(** The href starts with an excluded prefix; [http] counts when the href
    does not mention the current host. *)
Definition excluded_prefix (href : string) : bool :=
  (startsWith href "http" && negb (includes href host)) ||
  startsWith href "#" || startsWith href "javascript:" ||
  startsWith href "mailto:" || startsWith href "tel:".

(** C3 as the claim states it. *)
Definition shouldUseAjax_claim_as_stated : Prop :=
  (∀ href,
     allow_listed (strip_origin_prefix href) = true →
     excluded_prefix href = false →
     auth_query href = false →
     shouldUseAjax (Some href) = true) ∧
  (∀ href, auth_query href = true → shouldUseAjax (Some href) = false).

(** *** The pipeline *)

Definition resolveUrl (href : string) : string := resolve href.

Definition parsePageContent (html : string) : page_content :=
  let doc := parseFromString html in
  {| title := doc_title doc;
     body := doc_body doc;
     bodyClasses := doc_className doc;
     scripts :=
       innerHTML <$> filter (λ s, src s = None) (doc_scripts doc);
     externalScripts :=
       filter (λ u, includes u "ajax-navigation.js" = false)
         (omap src (doc_scripts doc)) |}.

Definition executeScripts (scripts : list string) (b : browser) : browser :=
  foldl (λ b content, executeScript content b) b scripts.

(** [reinitializeApp], and whether it returned ([false]: the call of
    [updateDvhProperty] threw). *)
Definition reinitializeApp (b : browser) : browser * bool :=
  let b := emit [Dispatch "ajax-navigation-complete"; Dispatch "DOMContentLoaded";
                 Dispatch "load"] b in
  match updateDvhProperty with
  | None => (emit [ScrollToTop] b, true)
  | Some true => (emit [UpdateDvh; ScrollToTop] b, true)
  | Some false => (emit [UpdateDvh] b, false)
  end.

(** The [catch] and [finally] blocks of [navigateAjax]: a full navigation
    to the href as given, and the lock released. *)
Definition fall_back (href : string) (b : browser) : browser :=
  with_lock false (emit [SetLocation href] b).

(** [navigateAjax] up to its [await fetch]; [None] when it returns at
    once. *)
Definition navigateAjax (href : string) (pushState : bool) (b : browser)
    : browser * option task :=
  if isNavigating b then (b, None)
  else
    let absoluteUrl := resolveUrl href in
    (emit [Fetch absoluteUrl] (with_lock true b),
     Some (AwaitFetch href absoluteUrl pushState)).

(** The [try] block from the content swap on. *)
Definition apply_page (href absoluteUrl : string) (pushState : bool) (html : string)
    (b : browser) : browser :=
  let pageContent := parsePageContent html in
  let b := swap_content pageContent b in
  if pushState && negb (same_origin absoluteUrl) then fall_back href b
  else
    let b :=
      if pushState
      then push_entry {| ajaxNav := true; entry_title := title pageContent;
                         entry_url := absoluteUrl |} b
      else b in
    let b := executeScripts (scripts pageContent) b in
    let '(b, returned) := reinitializeApp b in
    if returned then with_lock false b else fall_back href b.

(** A suspended run goes on when its promise settles; [None] when the
    settlement is not one of that [await]. *)
Definition resume (t : task) (s : settled) (b : browser) : option (browser * option task) :=
  match t, s with
  | AwaitFetch href _ _, Rejected => Some (fall_back href b, None)
  | AwaitFetch href absoluteUrl pushState, Responded status =>
      if response_ok status then Some (b, Some (AwaitText href absoluteUrl pushState))
      else Some (fall_back href b, None)
  | AwaitFetch _ _ _, BodyText _ => None
  | AwaitText href _ _, Rejected => Some (fall_back href b, None)
  | AwaitText href absoluteUrl pushState, BodyText html =>
      Some (apply_page href absoluteUrl pushState html b, None)
  | AwaitText _ _ _, Responded _ => None
  end.

(** [handleClick]: the run it starts, and whether it prevented the
    default action. *)
Definition handleClick (e : click) (b : browser) : browser * option task * bool :=
  match link e with
  | None => (b, None, false)
  | Some a =>
      if negb (shouldUseAjax (href a)) then (b, None, false)
      else if ctrlKey e || shiftKey e || metaKey e || altKey e then (b, None, false)
      else if String.eqb (target a) "_blank" then (b, None, false)
      else
        match href a with
        | Some h => (navigateAjax h true b, true)
        | None => (b, None, false)
        end
  end.

(** [handlePopState]; [state] is [e.state && e.state.ajaxNav], [here] is
    [window.location.href]. *)
Definition handlePopState (state : bool) (here : string) (b : browser)
    : browser * option task :=
  if state then navigateAjax here false b
  else (emit [Reload] b, None).

(** *** The event loop *)

(** The page and the runs of [navigateAjax] that are suspended. *)
Record system := { page : browser; pending : list task }.

(** What can happen next: a call of [navigateAjax] (from [handleClick],
    from [handlePopState] or through [window.ajaxNavigate]), the promise
    of the [i]-th suspended run settling, other code changing the page, or
    the removal timer of a script element running out; the lock is private
    to the script, so other code leaves it alone. *)
Inductive event :=
| Call (href : string) (pushState : bool)
| Clicked (e : click)
| Popped (state : bool) (here : string)
| Settle (i : nat) (s : settled)
| Other (change : browser → browser)
| Expired (i : nat).

Definition spawn (r : browser * option task) (sys : system) : system :=
  {| page := r.1; pending := pending sys ++ option_list r.2 |}.

Definition step (sys : system) (e : event) : system :=
  match e with
  | Call href pushState => spawn (navigateAjax href pushState (page sys)) sys
  | Clicked c => spawn (handleClick c (page sys)).1 sys
  | Popped state here => spawn (handlePopState state here (page sys)) sys
  | Settle i s =>
      match pending sys !! i with
      | Some t =>
          match resume t s (page sys) with
          | Some (b, t') =>
              {| page := b;
                 pending := take i (pending sys) ++ option_list t' ++
                            drop (S i) (pending sys) |}
          | None => sys
          end
      | None => sys
      end
  | Other change =>
      {| page := with_lock (isNavigating (page sys)) (change (page sys));
         pending := pending sys |}
  | Expired i => {| page := remove_script i (page sys); pending := pending sys |}
  end.

Definition run (sys : system) (es : list event) : system := foldl step sys es.

(** The script has just been loaded into [b]: no run is under way. *)
Definition loaded (b : browser) : system :=
  {| page := with_lock false b; pending := [] |}.

(** Whether a suspended run is to push a history entry. *)
Definition pushes (t : task) : bool :=
  match t with
  | AwaitFetch _ _ pushState | AwaitText _ _ pushState => pushState
  end.

(** No modifier key is held. *)
Definition plain_click (e : click) : bool :=
  negb (ctrlKey e || shiftKey e || metaKey e || altKey e).

(** What the eligibility test needs of an allow-list entry. *)
Definition plain_page (page : string) : bool :=
  negb (String.eqb page "") && negb (includes page "http") &&
  negb (startsWith page "#") && negb (startsWith page "javascript:") &&
  negb (startsWith page "mailto:") && negb (startsWith page "tel:") &&
  negb (includes page "?").

(** *** The invariant of the lock *)

(** The lock is held exactly while one run is suspended, and there is never
    more than one. *)
Definition lock_matches_pending (sys : system) : Prop :=
  (isNavigating (page sys) = false ∧ pending sys = []) ∨
  (isNavigating (page sys) = true ∧ ∃ t, pending sys = [t]).

(** The settlements that C4 is about: the fetch rejects, or answers with a
    status outside 200-299. *)
Definition fetch_failed (s : settled) : Prop :=
  s = Rejected ∨ ∃ status, s = Responded status ∧ response_ok status = false.

(** *** Eligibility *)

Lemma replace_empty p : replace "" p "" = "".
Proof. simpl. destruct (startsWith "" p); [|done]. by destruct (String.length p). Qed.

(** Where the href starts with the origin, taking out its first occurrence
    is stripping the prefix. *)
Lemma replace_origin_prefix href :
  startsWith href origin = true → replace href origin "" = strip_origin_prefix href.
Proof.
  intros H. unfold strip_origin_prefix. rewrite H.
  destruct href; simpl; by rewrite H.
Qed.

Lemma has_marker_unfold s :
  (includes s "access_token" || includes s "refresh_token" ||
   includes s "type=" || includes s "token_hash" || includes s "code=") = has_marker s.
Proof.
  unfold has_marker, auth_markers. cbn [existsb].
  destruct (includes s "access_token"), (includes s "refresh_token"),
    (includes s "type="), (includes s "token_hash"), (includes s "code="); done.
Qed.

Lemma has_marker_after s q :
  after "?"%char s = Some q → has_marker q = true → has_marker s = true.
Proof.
  intros Hq. unfold has_marker. rewrite !existsb_exists.
  intros (m & Hm & Hi). exists m. split; [done|]. by apply after_includes with "?"%char q.
Qed.

(** C3, amended.  An href is eligible when, with the first occurrence of
    the origin taken out, it equals or ends with an entry of the allow-list,
    it starts with no excluded prefix, and it does not hold both a [?] and
    an auth marker, wherever in the href the marker stands.  An href whose
    query string holds an auth marker is never eligible. *)
Theorem shouldUseAjax_eligibility href :
  (allow_listed (replace href origin "") = true →
   excluded_prefix href = false →
   includes href "?" && has_marker href = false →
   shouldUseAjax (Some href) = true) ∧
  (auth_query href = true → shouldUseAjax (Some href) = false).
Proof.
  split.
  - intros Hlist Hex Hq. unfold shouldUseAjax.
    destruct (String.eqb_spec href "") as [->|_].
    { by rewrite replace_empty in Hlist. }
    unfold excluded_prefix in Hex.
    apply orb_false_iff in Hex as [Hex Htel].
    apply orb_false_iff in Hex as [Hex Hmail].
    apply orb_false_iff in Hex as [Hex Hjs].
    apply orb_false_iff in Hex as [Hhttp Hhash].
    by rewrite Hhttp, Hhash, Hjs, Hmail, Htel, has_marker_unfold, Hq.
  - unfold auth_query, query_string. destruct (after "?"%char href) as [q|] eqn:Hq; [|done].
    intros Hm. unfold shouldUseAjax.
    rewrite has_marker_unfold, (has_marker_after href q Hq Hm),
      (includes_after _ _ _ Hq).
    destruct (String.eqb href ""); [done|].
    destruct (startsWith href "http" && negb (includes href host)); [done|].
    by destruct (startsWith href "#" || startsWith href "javascript:" ||
                 startsWith href "mailto:" || startsWith href "tel:").
Qed.

(** *** One navigation at a time *)

Lemma navigateAjax_locked href pushState b :
  isNavigating b = true → navigateAjax href pushState b = (b, None).
Proof. intros H. unfold navigateAjax. by rewrite H. Qed.

Lemma navigateAjax_free href pushState b :
  isNavigating b = false →
  navigateAjax href pushState b =
    (emit [Fetch (resolveUrl href)] (with_lock true b),
     Some (AwaitFetch href (resolveUrl href) pushState)).
Proof. intros H. unfold navigateAjax. by rewrite H. Qed.

Lemma apply_page_unlocks href absoluteUrl pushState html b :
  isNavigating (apply_page href absoluteUrl pushState html b) = false.
Proof.
  unfold apply_page. destruct (pushState && negb (same_origin absoluteUrl)); [done|].
  unfold reinitializeApp. by destruct updateDvhProperty as [[]|].
Qed.

(** A run that ends has released the lock; a run that goes on to its second
    [await] has left the page as it was. *)
Lemma resume_lock t s b b' t' :
  resume t s b = Some (b', t') →
  match t' with
  | None => isNavigating b' = false
  | Some _ => b' = b
  end.
Proof.
  destruct t as [href a p|href a p], s as [|status|html]; simpl; try done.
  - by intros [= <- <-].
  - destruct (response_ok status); by intros [= <- <-].
  - by intros [= <- <-].
  - intros [= <- <-]. apply apply_page_unlocks.
Qed.

Lemma spawn_navigateAjax href pushState sys :
  lock_matches_pending sys →
  lock_matches_pending (spawn (navigateAjax href pushState (page sys)) sys).
Proof.
  intros [[Hl Hp]|[Hl Hp]].
  - rewrite (navigateAjax_free _ _ _ Hl). right. unfold spawn. simpl.
    rewrite Hp. split; [done|]. by eexists.
  - rewrite (navigateAjax_locked _ _ _ Hl). right. unfold spawn. simpl.
    by rewrite app_nil_r.
Qed.

Lemma spawn_nothing b sys :
  isNavigating b = isNavigating (page sys) →
  lock_matches_pending sys → lock_matches_pending (spawn (b, None) sys).
Proof.
  intros Hb H. unfold lock_matches_pending, spawn. simpl.
  by rewrite app_nil_r, Hb.
Qed.

Lemma remove_script_lock i b : isNavigating (remove_script i b) = isNavigating b.
Proof. unfold remove_script. by destruct (removals b !! i). Qed.

Lemma step_lock_matches_pending sys e :
  lock_matches_pending sys → lock_matches_pending (step sys e).
Proof.
  intros H. destruct e as [href p|c|state here|i s|change|i]; simpl.
  - by apply spawn_navigateAjax.
  - unfold handleClick. destruct (link c) as [a|]; [|by apply spawn_nothing].
    destruct (negb (shouldUseAjax (href a))); [by apply spawn_nothing|].
    destruct (ctrlKey c || shiftKey c || metaKey c || altKey c); [by apply spawn_nothing|].
    destruct (String.eqb (target a) "_blank"); [by apply spawn_nothing|].
    destruct (href a) as [h|]; [|by apply spawn_nothing].
    simpl. by apply spawn_navigateAjax.
  - unfold handlePopState. destruct state; [by apply spawn_navigateAjax|].
    by apply spawn_nothing.
  - destruct (pending sys !! i) as [t|] eqn:Hi; [|done].
    destruct (resume t s (page sys)) as [[b' t']|] eqn:Hr; [|done].
    destruct H as [[Hl Hp]|[Hl [t0 Hp]]]; [by rewrite Hp in Hi|].
    rewrite Hp in *. destruct i as [|i]; [|done]. injection Hi as ->.
    apply resume_lock in Hr. unfold lock_matches_pending. simpl.
    destruct t' as [t'|]; simpl.
    + subst b'. right. split; [done|]. by eexists.
    + by left.
  - destruct H as [[Hl Hp]|[Hl Hp]]; [left|right]; by simpl.
  - unfold lock_matches_pending. simpl. by rewrite remove_script_lock.
Qed.

Lemma run_lock_matches_pending es : ∀ sys,
  lock_matches_pending sys → lock_matches_pending (run sys es).
Proof.
  induction es as [|e es IH]; intros sys H; [done|].
  simpl. by apply IH, step_lock_matches_pending.
Qed.

(** C2.  In every state the page reaches, at most one [navigateAjax] run is
    suspended and the lock is held exactly then; a call made meanwhile
    returns at once and changes nothing (no fetch, no swap, no history
    entry); and when the run ends, however it ends, the lock is free and
    the next call starts its fetch. *)
Theorem navigation_lock_single_flight es b0 :
  let sys := run (loaded b0) es in
  length (pending sys) ≤ 1 ∧
  (isNavigating (page sys) = true ↔ pending sys ≠ []) ∧
  (pending sys ≠ [] →
     ∀ href pushState, navigateAjax href pushState (page sys) = (page sys, None)) ∧
  (∀ i s t b',
     pending sys !! i = Some t → resume t s (page sys) = Some (b', None) →
     page (step sys (Settle i s)) = b' ∧
     pending (step sys (Settle i s)) = [] ∧
     isNavigating b' = false ∧
     ∀ href pushState,
       navigateAjax href pushState b' =
         (emit [Fetch (resolveUrl href)] (with_lock true b'),
          Some (AwaitFetch href (resolveUrl href) pushState))).
Proof.
  intros sys.
  assert (lock_matches_pending sys) as Hinv.
  { apply run_lock_matches_pending. by left. }
  split_and!.
  - destruct Hinv as [[_ ->]|[_ [t ->]]]; simpl; lia.
  - destruct Hinv as [[Hl ->]|[Hl [t ->]]]; rewrite Hl; split; done.
  - intros Hp href pushState. apply navigateAjax_locked.
    destruct Hinv as [[_ Hp']|[Hl _]]; done.
  - intros i s t b' Hi Hr. simpl. rewrite Hi, Hr. simpl.
    pose proof (resume_lock _ _ _ _ _ Hr) as Hfree. simpl in Hfree.
    destruct Hinv as [[_ Hp]|[_ [t0 Hp]]]; rewrite Hp in *; [done|].
    destruct i as [|i]; [|done].
    split_and!; [done|done|done|].
    intros href pushState. by apply navigateAjax_free.
Qed.

(** C4.  When the fetch of a [navigateAjax(href)] run rejects or answers
    with a status outside 200-299, the run ends there: the location is set
    to the href as it was passed, the lock is released, and neither the
    document nor the history has been touched. *)
Theorem fetch_failure_falls_back href pushState b s :
  isNavigating b = false → fetch_failed s →
  ∃ t started ended,
    navigateAjax href pushState b = (started, Some t) ∧
    resume t s started = Some (ended, None) ∧
    effects ended = effects b ++ [Fetch (resolveUrl href); SetLocation href] ∧
    isNavigating ended = false ∧
    document_title ended = document_title b ∧
    body_innerHTML ended = body_innerHTML b ∧
    body_className ended = body_className b ∧
    entries ended = entries b.
Proof.
  intros Hfree Hs. rewrite (navigateAjax_free _ _ _ Hfree).
  eexists _, _, (fall_back href (emit [Fetch (resolveUrl href)] (with_lock true b))).
  split; [reflexivity|]. split.
  - destruct Hs as [->|(status & -> & Hok)]; simpl; [done|]. by rewrite Hok.
  - simpl. by rewrite <- app_assoc.
Qed.

(** The same at the moment of the settlement, whatever happened to the page
    since the run started. *)
Lemma resume_fetch_failed href absoluteUrl pushState s b :
  fetch_failed s →
  resume (AwaitFetch href absoluteUrl pushState) s b = Some (fall_back href b, None).
Proof.
  intros [->|(status & -> & Hok)]; simpl; [done|]. by rewrite Hok.
Qed.

(** *** The pipeline, end to end *)

Lemma emit_emit e e' b : emit e' (emit e b) = emit (e ++ e') b.
Proof. unfold emit. simpl. by rewrite <- app_assoc. Qed.

(** The loop of [executeScripts], summed up. *)
Lemma executeScripts_eq scripts : ∀ b,
  executeScripts scripts b =
    {| isNavigating := isNavigating b; document_title := document_title b;
       body_innerHTML := body_innerHTML b; body_className := body_className b;
       body_scripts :=
         body_scripts b ++
         imap (λ i content, {| element := created b + i; textContent := content |}) scripts;
       removals := removals b ++ seq (created b) (length scripts);
       created := created b + length scripts;
       entries := entries b; effects := effects b ++ (RunScript <$> scripts) |}.
Proof.
  unfold executeScripts.
  induction scripts as [|content scripts IH]; intros b.
  - simpl. rewrite !app_nil_r, Nat.add_0_r. by destruct b.
  - cbn [foldl]. rewrite IH. unfold executeScript. cbn.
    rewrite <- !app_assoc, Nat.add_0_r. cbn.
    f_equal; [|lia].
    do 2 f_equal. apply imap_ext. intros i x _. cbn. f_equal. lia.
Qed.

(** Where every appended script element has its timer pending, the body is
    rid of them all once the timers have run out, and nothing else has
    changed. *)
Lemma remove_scripts_clears n : ∀ b,
  length (removals b) = n →
  (∀ s, s ∈ body_scripts b → element s ∈ removals b) →
  body_scripts (remove_scripts n b) = [] ∧ removals (remove_scripts n b) = [] ∧
  document_title (remove_scripts n b) = document_title b ∧
  body_innerHTML (remove_scripts n b) = body_innerHTML b ∧
  body_className (remove_scripts n b) = body_className b ∧
  entries (remove_scripts n b) = entries b ∧
  effects (remove_scripts n b) = effects b ∧
  isNavigating (remove_scripts n b) = isNavigating b.
Proof.
  induction n as [|n IH]; intros b Hn Hall; cbn [remove_scripts].
  - destruct (removals b) eqn:Hr; [|done].
    destruct (body_scripts b) as [|s l] eqn:Hb; [done|].
    specialize (Hall s (list_elem_of_here _ _)). by apply elem_of_nil in Hall.
  - destruct (removals b) as [|k ks] eqn:Hr; [done|].
    destruct (IH (remove_script 0 b)) as (H1 & H2 & H3 & H4 & H5 & H6 & H7 & H8).
    + unfold remove_script. rewrite Hr. cbn. cbn in Hn. lia.
    + unfold remove_script. rewrite Hr. cbn. intros s [Hne Hs]%list_elem_of_filter.
      specialize (Hall s Hs). apply elem_of_cons in Hall as [?|?]; done.
    + rewrite H1, H2, H3, H4, H5, H6, H7, H8.
      unfold remove_script. rewrite Hr. by cbn.
Qed.

(** The content swap and what follows it, where nothing fails. *)
Lemma apply_page_success href absoluteUrl pushState html b :
  (pushState = true → same_origin absoluteUrl = true) →
  updateDvhProperty ≠ Some false →
  let doc := parseFromString html in
  let inline := innerHTML <$> filter (λ s, src s = None) (doc_scripts doc) in
  apply_page href absoluteUrl pushState html b =
    {| isNavigating := false;
       document_title := doc_title doc;
       body_innerHTML := doc_body doc;
       body_className := doc_className doc;
       body_scripts :=
         imap (λ i content, {| element := created b + i; textContent := content |}) inline;
       removals := removals b ++ seq (created b) (length inline);
       created := created b + length inline;
       entries :=
         (if pushState
          then [ {| ajaxNav := true; entry_title := doc_title doc;
                    entry_url := absoluteUrl |} ]
          else []) ++ entries b;
       effects :=
         effects b ++ (RunScript <$> inline) ++
         [Dispatch "ajax-navigation-complete"; Dispatch "DOMContentLoaded";
          Dispatch "load"] ++
         match updateDvhProperty with Some _ => [UpdateDvh] | None => [] end ++
         [ScrollToTop] |}.
Proof.
  intros Hs Hdvh doc inline. unfold apply_page.
  assert (pushState && negb (same_origin absoluteUrl) = false) as ->.
  { destruct pushState; [|done]. by rewrite Hs. }
  rewrite executeScripts_eq. unfold reinitializeApp.
  destruct pushState, updateDvhProperty as [[]|]; try done;
    unfold with_lock, emit, push_entry, swap_content; cbn;
    by rewrite <- ?app_assoc.
Qed.

(** X13.  A forward or replayed navigation that meets no failure: the fetch
    answers with an ok status, the body arrives, the URL is one
    [pushState] accepts, and [updateDvhProperty] does not throw.  The
    document then has the fetched title and classes, and its body the
    fetched content followed by one script element for each inline script of
    the fetched page, each with a timer pending that removes it; once the
    pending timers have run out the body holds the fetched content alone.
    The history has one new AJAX-tagged entry for a forward navigation and
    is untouched for a replay; the inline scripts of the fetched page, and
    none of its external ones, were run in document order before the three
    lifecycle events; the location was never assigned; and the lock is
    free. *)
Theorem navigation_succeeds href pushState status html b :
  isNavigating b = false → response_ok status = true →
  (pushState = true → same_origin (resolveUrl href) = true) →
  updateDvhProperty ≠ Some false →
  let doc := parseFromString html in
  let inline := innerHTML <$> filter (λ s, src s = None) (doc_scripts doc) in
  ∃ t1 t2 b1 b2 b3,
    navigateAjax href pushState b = (b1, Some t1) ∧
    resume t1 (Responded status) b1 = Some (b2, Some t2) ∧
    resume t2 (BodyText html) b2 = Some (b3, None) ∧
    document_title b3 = doc_title doc ∧
    body_innerHTML b3 = doc_body doc ∧
    body_className b3 = doc_className doc ∧
    body_scripts b3 =
      imap (λ i content, {| element := created b + i; textContent := content |}) inline ∧
    removals b3 = removals b ++ seq (created b) (length inline) ∧
    entries b3 =
      (if pushState
       then [ {| ajaxNav := true; entry_title := doc_title doc;
                 entry_url := resolveUrl href |} ]
       else []) ++ entries b ∧
    effects b3 =
      effects b ++ [Fetch (resolveUrl href)] ++ (RunScript <$> inline) ++
      [Dispatch "ajax-navigation-complete"; Dispatch "DOMContentLoaded"; Dispatch "load"] ++
      match updateDvhProperty with Some _ => [UpdateDvh] | None => [] end ++
      [ScrollToTop] ∧
    isNavigating b3 = false ∧
    let b4 := remove_scripts (length (removals b3)) b3 in
    body_scripts b4 = [] ∧ removals b4 = [] ∧
    document_title b4 = doc_title doc ∧
    body_innerHTML b4 = doc_body doc ∧
    body_className b4 = doc_className doc.
Proof.
  intros Hfree Hok Hsame Hdvh doc inline.
  rewrite (navigateAjax_free _ _ _ Hfree).
  eexists _, _, _, _, _. split; [reflexivity|]. simpl. rewrite Hok.
  split; [reflexivity|]. split; [reflexivity|].
  rewrite (apply_page_success _ _ _ _ _ Hsame Hdvh). cbn.
  fold doc. fold inline.
  match goal with
  | |- context [remove_scripts _ ?b3] =>
      destruct (remove_scripts_clears (length (removals b3)) b3 eq_refl)
        as (R1 & R2 & R3 & R4 & R5 & _)
  end.
  { cbn. intros s (i & x & -> & Hi)%elem_of_lookup_imap_1.
    apply lookup_lt_Some in Hi. apply elem_of_app. right. apply elem_of_seq. cbn. lia. }
  split_and!; try done; try assumption. by rewrite <- app_assoc.
Qed.

(** X14.  What goes wrong after the body has arrived still ends in a full
    navigation to the href with the lock released.  When the body cannot be
    read the document is untouched.  When [pushState] refuses the URL, or
    [updateDvhProperty] throws, the fetched content is already in the
    document; in the first case no entry was pushed, no script was run and
    no script element is in the body; in the second the scripts were run
    and their elements are in the body behind the fetched content, each with
    its removal timer pending. *)
Theorem late_failure_falls_back href absoluteUrl pushState html b :
  let t := AwaitText href absoluteUrl pushState in
  let doc := parseFromString html in
  let inline := innerHTML <$> filter (λ s, src s = None) (doc_scripts doc) in
  resume t Rejected b = Some (fall_back href b, None) ∧
  (pushState = true → same_origin absoluteUrl = false →
     ∃ b', resume t (BodyText html) b = Some (b', None) ∧
           isNavigating b' = false ∧
           effects b' = effects b ++ [SetLocation href] ∧
           entries b' = entries b ∧
           document_title b' = doc_title doc ∧ body_innerHTML b' = doc_body doc ∧
           body_scripts b' = [] ∧ removals b' = removals b) ∧
  (updateDvhProperty = Some false →
   (pushState = true → same_origin absoluteUrl = true) →
     ∃ b', resume t (BodyText html) b = Some (b', None) ∧
           isNavigating b' = false ∧
           effects b' =
             effects b ++ (RunScript <$> inline) ++
             [Dispatch "ajax-navigation-complete"; Dispatch "DOMContentLoaded";
              Dispatch "load"; UpdateDvh; SetLocation href] ∧
           document_title b' = doc_title doc ∧ body_innerHTML b' = doc_body doc ∧
           body_scripts b' =
             imap (λ i content, {| element := created b + i; textContent := content |})
               inline ∧
           removals b' = removals b ++ seq (created b) (length inline)).
Proof.
  intros t doc inline. split; [done|]. split.
  - intros -> Hs. eexists. split; [reflexivity|].
    unfold apply_page. rewrite Hs. by cbn.
  - intros Hd Hs. simpl. unfold apply_page.
    assert (pushState && negb (same_origin absoluteUrl) = false) as ->.
    { destruct pushState; [|done]. by rewrite Hs. }
    rewrite executeScripts_eq. unfold reinitializeApp. rewrite Hd.
    eexists. split; [reflexivity|].
    destruct pushState; cbn; rewrite <- ?app_assoc; by split_and!.
Qed.

Lemma shouldUseAjax_when href :
  String.eqb href "" = false →
  startsWith href "http" && negb (includes href host) = false →
  startsWith href "#" = false → startsWith href "javascript:" = false →
  startsWith href "mailto:" = false → startsWith href "tel:" = false →
  includes href "?" = false →
  allow_listed (replace href origin "") = true →
  shouldUseAjax (Some href) = true.
Proof.
  intros H0 H1 H2 H3 H4 H5 H6 H7. unfold shouldUseAjax.
  by rewrite H0, H1, H2, H3, H4, H5, H6.
Qed.

Lemma AJAX_PAGES_plain page :
  page ∈ AJAX_PAGES → plain_page page = true ∧ allow_listed page = true.
Proof.
  intros H%list_elem_of_In.
  assert (forallb (λ p, plain_page p && allow_listed p) AJAX_PAGES = true) as Hall
    by (vm_compute; reflexivity).
  rewrite forallb_forall in Hall. by apply andb_true_iff, Hall.
Qed.

(** X15.  Every entry of the allow-list is itself eligible, written as it stands
    (a relative link) or behind the origin (an absolute link to the same
    site), on a page served over http or https. *)
Theorem allow_listed_pages_are_eligible page :
  page ∈ AJAX_PAGES → startsWith origin "http" = true →
  shouldUseAjax (Some page) = true ∧
  (includes origin host = true → includes origin "?" = false →
   shouldUseAjax (Some (origin ++ page)%string) = true).
Proof.
  intros [Hplain Hlist]%AJAX_PAGES_plain Ho.
  unfold plain_page in Hplain.
  repeat (apply andb_true_iff in Hplain as [Hplain ?]).
  repeat match goal with H : negb _ = true |- _ => apply negb_true_iff in H end.
  assert (startsWith page "http" = false) as Hhttp.
  { destruct page; simpl in *; [done|]. by apply orb_false_iff in H4 as [? _]. }
  split.
  - apply shouldUseAjax_when; try done.
    + by rewrite Hhttp.
    + rewrite replace_absent; [done|].
      destruct (includes page origin) eqn:E; [|done].
      by rewrite (includes_prefix _ _ _ E Ho) in H4.
  - intros Hhost Hq.
    destruct origin as [|c o] eqn:Eo; [done|].
    assert (c = "h"%char) as ->.
    { simpl in Ho. apply andb_true_iff in Ho as [Hc _]. symmetry. by apply Ascii.eqb_eq. }
    rewrite <- Eo in *.
    apply shouldUseAjax_when.
    + by rewrite Eo.
    + by rewrite (includes_app_l _ _ _ Hhost), andb_false_r.
    + by rewrite Eo.
    + by rewrite Eo.
    + by rewrite Eo.
    + by rewrite Eo.
    + by rewrite (includes_app_char "?"%char), Hq, H.
    + by rewrite replace_prefix, slice_app by apply startsWith_app.
Qed.

(** *** History entries *)

Lemma apply_page_entries_replay href absoluteUrl html b :
  entries (apply_page href absoluteUrl false html b) = entries b.
Proof.
  unfold apply_page. cbn [andb]. rewrite executeScripts_eq. unfold reinitializeApp.
  by destruct updateDvhProperty as [[]|].
Qed.

(** X16.  Back and forward never add to the history.  [handlePopState] pushes
    nothing itself; the run it starts for an AJAX-tagged entry is a replay,
    and a replay leaves the entries as they are at each of its steps,
    however it ends; for an entry without the tag it reloads and starts no
    run. *)
Theorem popstate_never_pushes state here b :
  entries (handlePopState state here b).1 = entries b ∧
  (∀ t, (handlePopState state here b).2 = Some t → state = true ∧ pushes t = false) ∧
  (state = false → handlePopState state here b = (emit [Reload] b, None)) ∧
  (∀ t s b1 b2 t', pushes t = false → resume t s b1 = Some (b2, t') →
     entries b2 = entries b1 ∧ ∀ t2, t' = Some t2 → pushes t2 = false).
Proof.
  split_and!.
  - unfold handlePopState, navigateAjax. by repeat case_match.
  - intros t. unfold handlePopState, navigateAjax. destruct state; [|done].
    destruct (isNavigating b); [done|]. by intros [= <-].
  - by intros ->.
  - intros [href a p|href a p] [|status|html] b1 b2 t'; simpl; intros -> Hr;
      try done.
    + by injection Hr as <- <-.
    + destruct (response_ok status); injection Hr as <- <-; split; try done.
      by intros t2 [= <-].
    + by injection Hr as <- <-.
    + injection Hr as <- <-. split; [apply apply_page_entries_replay|done].
Qed.

(** *** Clicks *)

Lemma handleClick_cases e b :
  handleClick e b = (b, None, false) ∨
  ∃ a h, link e = Some a ∧ href a = Some h ∧ shouldUseAjax (Some h) = true ∧
         plain_click e = true ∧ target a ≠ "_blank" ∧
         handleClick e b = (navigateAjax h true b, true).
Proof.
  unfold handleClick, plain_click. destruct (link e) as [a|]; [|by left].
  destruct (shouldUseAjax (href a)) eqn:Hs; simpl; [|by left].
  destruct (ctrlKey e || shiftKey e || metaKey e || altKey e); [by left|].
  destruct (String.eqb_spec (target a) "_blank") as [|Ht]; [by left|].
  destruct (href a) as [h|] eqn:Hh; [|by left]. right. exists a, h. by split_and!.
Qed.

(** X17.  A click with a modifier key held, or on a link that opens in a new tab,
    or outside any link, is left to the browser: nothing is fetched, the
    page and the lock are as before and the default action goes ahead. *)
Theorem handleClick_leaves_new_tab_clicks e b :
  (plain_click e = false ∨ link e = None ∨ ∃ a, link e = Some a ∧ target a = "_blank") →
  handleClick e b = (b, None, false).
Proof.
  intros H. destruct (handleClick_cases e b) as [|(a & h & Hl & _ & _ & Hp & Ht & _)]; [done|].
  destruct H as [H|[H|(a' & Ha & H)]]; congruence.
Qed.

(** X18.  [handleClick] prevents the default action exactly when it hands the
    href of the clicked link to [navigateAjax].  While another navigation is
    under way that call is dropped, so an eligible click then does nothing at
    all: the default is prevented, nothing is fetched and the page stays as
    it is.  Otherwise the lock is taken and the fetch is of that href,
    resolved. *)
Theorem handleClick_prevents_when_it_navigates e b :
  ((handleClick e b).2 = true ↔
     ∃ a h, link e = Some a ∧ href a = Some h ∧ shouldUseAjax (Some h) = true ∧
            plain_click e = true ∧ target a ≠ "_blank") ∧
  ((handleClick e b).2 = true → isNavigating b = true →
     handleClick e b = (b, None, true)) ∧
  ((handleClick e b).2 = true → isNavigating b = false →
     ∃ a h, link e = Some a ∧ href a = Some h ∧
            handleClick e b =
              (emit [Fetch (resolveUrl h)] (with_lock true b),
               Some (AwaitFetch h (resolveUrl h) true), true)).
Proof.
  destruct (handleClick_cases e b) as [E|(a & h & Hl & Hh & Hs & Hp & Ht & E)];
    rewrite E; cbn [fst snd].
  - split_and!; try done. split; [done|]. intros (a & h & Hl & Hh & Hs & Hp & Ht).
    revert E. unfold handleClick, plain_click in *. rewrite Hl, Hh, Hs. cbn [negb].
    apply negb_true_iff in Hp. rewrite Hp.
    apply String.eqb_neq in Ht. rewrite Ht. done.
  - split_and!.
    + split; [|done]. intros _. by exists a, h.
    + intros _ Hlock. by rewrite (navigateAjax_locked _ _ _ Hlock).
    + intros _ Hfree. exists a, h. by rewrite (navigateAjax_free _ _ _ Hfree).
Qed.

(** *** More on eligibility *)

Lemma shouldUseAjax_excluded href :
  excluded_prefix href = true → shouldUseAjax (Some href) = false.
Proof.
  unfold excluded_prefix, shouldUseAjax. intros H.
  destruct (String.eqb href ""); [done|].
  destruct (startsWith href "http" && negb (includes href host)); [done|].
  cbn [orb] in H. by rewrite H.
Qed.

Lemma shouldUseAjax_auth_query href :
  auth_query href = true → shouldUseAjax (Some href) = false.
Proof.
  unfold auth_query, query_string. destruct (after "?"%char href) as [q|] eqn:Hq; [|done].
  intros Hm. unfold shouldUseAjax.
  rewrite has_marker_unfold, (has_marker_after href q Hq Hm), (includes_after _ _ _ Hq).
  by repeat case_match.
Qed.

(** X19.  Links that are not the application's own are left to the browser: a
    link without href or with an empty one, an in-page anchor, a
    [javascript:], [mailto:] or [tel:] link, an [http] link that does not
    mention the current host, and a link whose query string carries an auth
    marker.  [handleClick] returns without preventing the default and
    without starting a run. *)
Theorem handleClick_leaves_foreign_links e a b :
  link e = Some a →
  (href a = None ∨
   ∃ h, href a = Some h ∧ (h = "" ∨ excluded_prefix h = true ∨ auth_query h = true)) →
  handleClick e b = (b, None, false).
Proof.
  intros Hl H. unfold handleClick. rewrite Hl.
  assert (shouldUseAjax (href a) = false) as ->; [|done].
  destruct H as [->|(h & -> & [->|[H|H]])]; [done|done| |].
  - by apply shouldUseAjax_excluded.
  - by apply shouldUseAjax_auth_query.
Qed.

(** *** The overlay script on the same click *)

Lemma shouldUseAjax_prefixes h :
  shouldUseAjax (Some h) = true →
  String.eqb h "" = false ∧ startsWith h "#" = false ∧ startsWith h "javascript:" = false.
Proof.
  unfold shouldUseAjax. destruct (String.eqb h ""); [done|].
  destruct (startsWith h "http" && negb (includes h host)); [done|].
  destruct (startsWith h "#"), (startsWith h "javascript:"); cbn [orb]; done.
Qed.

(** X20.  Both scripts listen to every click.  On a click that [handleClick]
    takes over, the overlay script shows its overlay when the href is
    relative and the link has no download attribute; for an absolute href,
    or a link with a download attribute, the page is fetched and swapped
    with the overlay left as it was. *)
Theorem ajax_click_and_overlay e o b :
  (handleClick e b).2 = true →
  ∃ a h, link e = Some a ∧ href a = Some h ∧
    InstantNav.overlay_after (InstantNav.on_click (link e) o) =
      if startsWith h "http" || download a then o else InstantNav.showNavOverlay o.
Proof.
  destruct (handleClick_cases e b) as [E|(a & h & Hl & Hh & Hs & _ & Ht & E)];
    rewrite E; cbn [fst snd]; [done|]. intros _.
  exists a, h. split; [done|]. split; [done|]. rewrite Hl.
  destruct (shouldUseAjax_prefixes h Hs) as (H0 & H1 & H2).
  apply String.eqb_neq in Ht.
  unfold InstantNav.on_click, InstantNav.click_skipped.
  rewrite Hh, H0, H1, H2, Ht. cbn [orb].
  rewrite !orb_false_r. by destruct (startsWith h "http" || download a).
Qed.

(** X21.  A click with a modifier key on an internal link is left to the browser
    by [handleClick], which starts no navigation in this page; the overlay
    script does not look at the keys and shows its overlay all the same. *)
Theorem modified_click_is_masked e a o b :
  link e = Some a → InstantNav.internal_link a = true → plain_click e = false →
  handleClick e b = (b, None, false) ∧
  InstantNav.overlay_after (InstantNav.on_click (link e) o) = InstantNav.showNavOverlay o.
Proof.
  intros Hl Hi Hp. split.
  - destruct (handleClick_cases e b) as [|(_ & _ & _ & _ & _ & Hp' & _)]; congruence.
  - rewrite Hl. unfold InstantNav.on_click.
    by rewrite InstantNav.click_skipped_internal, Hi.
Qed.

End Page.

(** *** The properties on a concrete page *)

(** C3 fails as stated: the marker [code=] stands in the path, before the
    [?]; the query string holds no marker and the href ends with
    [/index.html], yet the href is not eligible. *)
Lemma shouldUseAjax_claim_fails_on_marker_in_path :
  ¬ shouldUseAjax_claim_as_stated example_origin example_host.
Proof.
  intros [H _].
  specialize (H "/promo/code=SUMMER?next=/index.html" eq_refl eq_refl eq_refl).
  vm_compute in H. discriminate H.
Qed.

(** The origin is taken out wherever it first occurs, not only in front:
    here the href ends with [profile.html] and what is left of it does not. *)
Example origin_removed_inside_href :
  allow_listed "xhttps://approfile.html" = true ∧
  shouldUseAjax "https://app" "app" (Some "xhttps://approfile.html") = false.
Proof. split; reflexivity. Qed.

Lemma shouldUseAjax_eligibility_witness :
  shouldUseAjax example_origin example_host
    (Some "https://viltrum.example/pages/dashboard.html") = true ∧
  shouldUseAjax example_origin example_host
    (Some "/index.html?code=4f2a&next=/pages/profile.html") = false.
Proof.
  split.
  - apply (shouldUseAjax_eligibility example_origin example_host); reflexivity.
  - apply (shouldUseAjax_eligibility example_origin example_host); reflexivity.
Defined.

Lemma navigation_lock_single_flight_witness :
  let step' := step example_origin example_host example_resolve example_parse
                 (λ _, true) None in
  let sys := run example_origin example_host example_resolve example_parse
               (λ _, true) None (loaded example_browser)
               [Call "pages/workout.html" true; Settle 0 (Responded 200)] in
  let sys' := step' sys (Settle 0 (BodyText "<main>Workout</main>")) in
  navigateAjax example_resolve "pages/profile.html" true (page sys) = (page sys, None) ∧
  isNavigating (page sys') = false ∧
  pending sys' = [] ∧
  (navigateAjax example_resolve "pages/profile.html" true (page sys')).2 =
    Some (AwaitFetch "pages/profile.html"
            "https://viltrum.example/pages/profile.html" true).
Proof.
  intros step' sys sys'.
  destruct (navigation_lock_single_flight example_origin example_host example_resolve
              example_parse (λ _, true) None
              [Call "pages/workout.html" true; Settle 0 (Responded 200)] example_browser)
    as (_ & _ & Hdrop & Hend).
  split; [apply Hdrop; discriminate|].
  destruct (Hend 0 (BodyText "<main>Workout</main>") _ _ eq_refl eq_refl)
    as (Hpage & Hpending & Hfree & Hnext).
  fold sys in Hpage, Hpending. fold step' in Hpage, Hpending. fold sys' in Hpage, Hpending.
  rewrite Hpage. split; [exact Hfree|]. split; [exact Hpending|].
  by rewrite Hnext.
Defined.

Lemma fetch_failure_falls_back_witness :
  ∃ t started ended,
    navigateAjax example_resolve "pages/nutrition.html" true example_browser =
      (started, Some t) ∧
    resume example_parse (λ _, true) None t (Responded 404) started = Some (ended, None) ∧
    effects ended = [Fetch "https://viltrum.example/pages/nutrition.html";
                     SetLocation "pages/nutrition.html"] ∧
    isNavigating ended = false.
Proof.
  destruct (fetch_failure_falls_back example_resolve example_parse (λ _, true) None
              "pages/nutrition.html" true example_browser (Responded 404))
    as (t & started & ended & Hstart & Hend & Heff & Hlock & _).
  - reflexivity.
  - right. exists 404%Z. split; reflexivity.
  - exists t, started, ended. split; [exact Hstart|]. split; [exact Hend|].
    split; [exact Heff|exact Hlock].
Defined.

Lemma navigation_succeeds_witness :
  ∃ t1 t2 b1 b2 b3,
    navigateAjax example_resolve "pages/workout.html" true example_browser = (b1, Some t1) ∧
    resume example_parse (λ _, true) (Some true) t1 (Responded 200) b1 = Some (b2, Some t2) ∧
    resume example_parse (λ _, true) (Some true) t2 (BodyText "<main>Workout</main>") b2 =
      Some (b3, None) ∧
    body_innerHTML b3 = "<main>Workout</main>" ∧
    body_scripts b3 = [ {| element := 0; textContent := "initPage()" |} ] ∧
    removals b3 = [0] ∧
    entries b3 = [ {| ajaxNav := true; entry_title := "Viltrum";
                      entry_url := "https://viltrum.example/pages/workout.html" |} ] ∧
    effects b3 = [ Fetch "https://viltrum.example/pages/workout.html";
                   RunScript "initPage()";
                   Dispatch "ajax-navigation-complete"; Dispatch "DOMContentLoaded";
                   Dispatch "load"; UpdateDvh; ScrollToTop ] ∧
    isNavigating b3 = false ∧
    body_scripts (remove_scripts (length (removals b3)) b3) = [].
Proof.
  destruct (navigation_succeeds example_resolve example_parse (λ _, true) (Some true)
              "pages/workout.html" true 200 "<main>Workout</main>" example_browser)
    as (t1 & t2 & b1 & b2 & b3 & H1 & H2 & H3 & _ & Hbody & _ & Hscripts & Hremovals &
        Hentries & Heffects & Hlock & Hgone & _);
    [reflexivity|reflexivity|reflexivity|discriminate|].
  exists t1, t2, b1, b2, b3.
  split; [exact H1|]. split; [exact H2|]. split; [exact H3|]. split; [exact Hbody|].
  split; [exact Hscripts|]. split; [exact Hremovals|].
  split; [exact Hentries|]. split; [exact Heffects|]. split; [exact Hlock|exact Hgone].
Defined.

Lemma late_failure_falls_back_witness :
  let t := AwaitText "pages/profile.html" "https://viltrum.example/pages/profile.html" true in
  let b := with_lock true example_browser in
  (∃ b', resume example_parse (λ _, false) None t (BodyText "<main>Profile</main>") b =
           Some (b', None) ∧
         isNavigating b' = false ∧
         effects b' = [SetLocation "pages/profile.html"] ∧
         entries b' = [] ∧
         body_innerHTML b' = "<main>Profile</main>" ∧
         body_scripts b' = []) ∧
  (∃ b', resume example_parse (λ _, true) (Some false) t (BodyText "<main>Profile</main>") b =
           Some (b', None) ∧
         isNavigating b' = false ∧
         effects b' = [ RunScript "initPage()"; Dispatch "ajax-navigation-complete";
                        Dispatch "DOMContentLoaded"; Dispatch "load"; UpdateDvh;
                        SetLocation "pages/profile.html" ] ∧
         body_scripts b' = [ {| element := 0; textContent := "initPage()" |} ]).
Proof.
  intros t b. split.
  - destruct (late_failure_falls_back example_parse (λ _, false) None "pages/profile.html"
                "https://viltrum.example/pages/profile.html" true "<main>Profile</main>" b)
      as (_ & Hpush & _).
    destruct (Hpush eq_refl eq_refl)
      as (b' & Hr & Hlock & Heff & Hent & _ & Hbody & Hscripts & _).
    exists b'. split; [exact Hr|]. split; [exact Hlock|]. split; [exact Heff|].
    split; [exact Hent|]. split; [exact Hbody|exact Hscripts].
  - destruct (late_failure_falls_back example_parse (λ _, true) (Some false)
                "pages/profile.html" "https://viltrum.example/pages/profile.html" true
                "<main>Profile</main>" b)
      as (_ & _ & Hdvh).
    destruct (Hdvh eq_refl (λ _, eq_refl)) as (b' & Hr & Hlock & Heff & _ & _ & Hscripts & _).
    exists b'. split; [exact Hr|]. split; [exact Hlock|]. split; [exact Heff|exact Hscripts].
Defined.

Lemma handleClick_prevents_when_it_navigates_witness :
  let a := {| href := Some "pages/workout.html"; target := ""; download := false |} in
  let e := {| link := Some a;
              ctrlKey := false; shiftKey := false; metaKey := false; altKey := false |} in
  handleClick example_origin example_host example_resolve e (with_lock true example_browser) =
    (with_lock true example_browser, None, true) ∧
  ∃ a' h, link e = Some a' ∧ href a' = Some h ∧
    handleClick example_origin example_host example_resolve e example_browser =
      (emit [Fetch (example_resolve h)] (with_lock true example_browser),
       Some (AwaitFetch h (example_resolve h) true), true).
Proof.
  intros a e.
  destruct (handleClick_prevents_when_it_navigates example_origin example_host
              example_resolve e (with_lock true example_browser)) as (_ & Hlocked & _).
  destruct (handleClick_prevents_when_it_navigates example_origin example_host
              example_resolve e example_browser) as (_ & _ & Hfree).
  split; [apply Hlocked; reflexivity|apply Hfree; reflexivity].
Defined.

Lemma allow_listed_pages_are_eligible_witness :
  shouldUseAjax example_origin example_host (Some "/pages/profile.html") = true ∧
  shouldUseAjax example_origin example_host
    (Some "https://viltrum.example/pages/profile.html") = true.
Proof.
  destruct (allow_listed_pages_are_eligible example_origin example_host "/pages/profile.html")
    as [Hrel Habs].
  - apply list_elem_of_In. do 4 right. left. reflexivity.
  - reflexivity.
  - split; [exact Hrel|]. exact (Habs eq_refl eq_refl).
Defined.

Lemma handleClick_leaves_new_tab_clicks_witness :
  handleClick example_origin example_host example_resolve
    {| link := Some {| href := Some "/pages/workout.html"; target := ""; download := false |};
       ctrlKey := true; shiftKey := false; metaKey := false; altKey := false |}
    example_browser = (example_browser, None, false).
Proof.
  apply (handleClick_leaves_new_tab_clicks example_origin example_host example_resolve).
  left. reflexivity.
Defined.

Lemma handleClick_leaves_foreign_links_witness :
  handleClick example_origin example_host example_resolve
    {| link := Some {| href := Some "/index.html?access_token=abc"; target := "";
                       download := false |};
       ctrlKey := false; shiftKey := false; metaKey := false; altKey := false |}
    example_browser = (example_browser, None, false).
Proof.
  apply (handleClick_leaves_foreign_links example_origin example_host example_resolve _
           {| href := Some "/index.html?access_token=abc"; target := ""; download := false |});
    [reflexivity|].
  right. exists "/index.html?access_token=abc". split; [reflexivity|].
  right. right. reflexivity.
Defined.

Lemma ajax_click_and_overlay_witness :
  let e := {| link := Some {| href := Some "pages/workout.html"; target := "";
                              download := false |};
              ctrlKey := false; shiftKey := false; metaKey := false; altKey := false |} in
  (handleClick example_origin example_host example_resolve e example_browser).2 = true ∧
  ∃ a h, link e = Some a ∧ href a = Some h ∧
    InstantNav.overlay_after (InstantNav.on_click (link e) (Some false)) =
      if startsWith h "http" || download a then Some false
      else InstantNav.showNavOverlay (Some false).
Proof.
  intros e. split; [reflexivity|].
  apply (ajax_click_and_overlay example_origin example_host example_resolve e (Some false)
           example_browser).
  reflexivity.
Defined.

Lemma modified_click_is_masked_witness :
  let a := {| href := Some "pages/workout.html"; target := ""; download := false |} in
  let e := {| link := Some a;
              ctrlKey := true; shiftKey := false; metaKey := false; altKey := false |} in
  handleClick example_origin example_host example_resolve e example_browser =
    (example_browser, None, false) ∧
  InstantNav.overlay_after (InstantNav.on_click (link e) (Some false)) = Some true.
Proof.
  intros a e.
  apply (modified_click_is_masked example_origin example_host example_resolve e a
           (Some false) example_browser); reflexivity.
Defined.

End AjaxNav.
